(** * email_processor.py: unread mail to support-ticket webhook

    A shallow embedding of [src/email_processor.py] and the properties of
    its message-to-ticket pipeline.

    - A Python [str] is a list of Unicode code points, a [bytes] value a
      list of bytes.
    - A call that may raise returns an [answer]; the statements of [main]
      run in a monad that threads the chronological list of the
      interactions with the outside world (IMAP server, HTTP endpoint,
      standard output) and distinguishes a raised [Exception] from
      [SystemExit].
    - The standard-library functions whose tables are not part of the
      repository (codecs, RFC 2047 header decoding, the MIME parser, the
      IP-literal and NFKC checks of [urlsplit]) are the fields of the class
      [Library]; the servers are the fields of the record [World]. *)

From Stdlib Require Import List NArith ZArith Bool Lia Ascii String.
From Stdlib.Strings Require Import Byte.
Import ListNotations.
Local Open Scope list_scope.

(** ** Python values *)

Definition char := N.
Definition str := list char.
Definition bytes := list byte.

(** The code points of an ASCII (or Latin-1) literal. *)
Definition str_of (s : string) : str :=
  map N_of_ascii (list_ascii_of_string s).

(** The bytes of a literal. *)
Definition bytes_of (s : string) : bytes := list_byte_of_string s.

(** A one-character literal. *)
Definition chr (a : ascii) : char := N_of_ascii a.

(** The double-quote character. *)
Definition quote : char := 0x22%N.

Arguments str_of s%_string.
Arguments bytes_of s%_string.
Arguments chr a%_char.

Definition char_eqb : char -> char -> bool := N.eqb.

Fixpoint str_eqb (a b : str) : bool :=
  match a, b with
  | [], [] => true
  | x :: a', y :: b' => char_eqb x y && str_eqb a' b'
  | _, _ => false
  end.

Fixpoint bytes_eqb (a b : bytes) : bool :=
  match a, b with
  | [], [] => true
  | x :: a', y :: b' => Byte.eqb x y && bytes_eqb a' b'
  | _, _ => false
  end.

(** [c in s] for a one-character [c]. *)
Definition contains (c : char) (s : str) : bool := existsb (char_eqb c) s.

(** [str.isspace] on one code point (Unicode White_Space as CPython has it). *)
Definition isspace (c : char) : bool :=
  (((0x09 <=? c) && (c <=? 0x0D)) || ((0x1C <=? c) && (c <=? 0x20))
   || (c =? 0x85) || (c =? 0xA0) || (c =? 0x1680)
   || ((0x2000 <=? c) && (c <=? 0x200A))
   || (c =? 0x2028) || (c =? 0x2029) || (c =? 0x202F) || (c =? 0x205F)
   || (c =? 0x3000))%N.

(** [bytes.isspace] on one byte: the six ASCII blanks. *)
Definition isspace_byte (b : byte) : bool :=
  let c := Byte.to_N b in (((0x09 <=? c) && (c <=? 0x0D)) || (c =? 0x20))%N.

Section Sequences.
Context {A : Type}.

Fixpoint dropwhile (p : A -> bool) (s : list A) : list A :=
  match s with
  | [] => []
  | c :: s' => if p c then dropwhile p s' else s
  end.

Fixpoint takewhile (p : A -> bool) (s : list A) : list A :=
  match s with
  | [] => []
  | c :: s' => if p c then c :: takewhile p s' else []
  end.

Definition lstrip (p : A -> bool) (s : list A) : list A := dropwhile p s.
Definition rstrip (p : A -> bool) (s : list A) : list A :=
  rev (dropwhile p (rev s)).

(** [s.strip(chars)], [p] deciding membership in [chars]
    (or whitespace when no argument is given). *)
Definition strip (p : A -> bool) (s : list A) : list A :=
  rstrip p (lstrip p s).

(** [s.split()]: the maximal runs of non-blank elements; [word] is the
    run being read. *)
Fixpoint split_words (blank : A -> bool) (word s : list A) : list (list A) :=
  match s with
  | [] => match word with [] => [] | _ => [word] end
  | c :: s' =>
      if blank c then
        match word with
        | [] => split_words blank [] s'
        | _ => word :: split_words blank [] s'
        end
      else split_words blank (word ++ [c]) s'
  end.

(** [s.split(sep)] for a one-element separator: never empty. *)
Fixpoint split_on (is_sep : A -> bool) (s : list A) : list (list A) :=
  match s with
  | [] => [[]]
  | c :: s' =>
      if is_sep c then [] :: split_on is_sep s'
      else match split_on is_sep s' with
           | p :: ps => (c :: p) :: ps
           | [] => [[c]]
           end
  end.

(** [sep.join(l)]. *)
Fixpoint join (sep : list A) (l : list (list A)) : list A :=
  match l with
  | [] => []
  | [x] => x
  | x :: l' => x ++ sep ++ join sep l'
  end.
End Sequences.

Definition split (s : str) : list str := split_words isspace [] s.
Definition bytes_split (b : bytes) : list bytes := split_words isspace_byte [] b.

Fixpoint starts_with (p s : str) : bool :=
  match p, s with
  | [], _ => true
  | x :: p', y :: s' => char_eqb x y && starts_with p' s'
  | _ :: _, [] => false
  end.

(** [s.replace(old, new, 1)]: the leftmost occurrence of [old] only. *)
Fixpoint replace_first (old new s : str) : str :=
  if starts_with old s then new ++ skipn (List.length old) s
  else match s with
       | [] => []
       | c :: s' => c :: replace_first old new s'
       end.

(** ** Exceptions and fallible calls *)

(** The classes of [Exception] that reach the handlers of the program.
    [SystemExit] is not among them: it is not an [Exception]. *)
Inductive exn : Type :=
| IMAP4_error          (* imaplib.IMAP4.error, with abort and readonly *)
| RequestException     (* requests: timeout, connection reset, TLS rejection *)
| AttributeError
| TypeError
| IndexError
| KeyError
| ValueError
| LookupError          (* unknown codec *)
| UnicodeDecodeError
| HeaderParseError
| OSError.

Inductive answer (A : Type) : Type :=
| Returns (a : A)
| Raises (e : exn).
Arguments Returns {A} a.
Arguments Raises {A} e.

Definition answer_bind {A B} (r : answer A) (k : A -> answer B) : answer B :=
  match r with
  | Returns a => k a
  | Raises e => Raises e
  end.

Declare Scope answer_scope.
Delimit Scope answer_scope with answer.
Notation "x <- r ;; k" := (answer_bind r (fun x => k))
  (at level 100, r at next level, right associativity) : answer_scope.

(** [l[i]]: raises [IndexError] out of range. *)
Definition item {A} (l : list A) (i : nat) : answer A :=
  match nth_error l i with
  | Some a => Returns a
  | None => Raises IndexError
  end.

(** ** Parsed messages *)

(** An [email.message.Message] as the program reads it: the [From] and
    [Subject] headers ([None] when absent), the value of
    [get_content_type()], and either the body bytes that
    [get_payload(decode=True)] yields or the list of sub-messages. *)
#[warnings="-register-all"]
Inductive Message : Type :=
| Leaf (from subject : option str) (content_type : str) (payload : bytes)
| Multipart (from subject : option str) (content_type : str)
    (parts : list Message).

Definition msg_from (m : Message) : option str :=
  match m with Leaf f _ _ _ | Multipart f _ _ _ => f end.
Definition msg_subject (m : Message) : option str :=
  match m with Leaf _ s _ _ | Multipart _ s _ _ => s end.
Definition get_content_type (m : Message) : str :=
  match m with Leaf _ _ t _ | Multipart _ _ t _ => t end.
Definition is_multipart (m : Message) : bool :=
  match m with Leaf _ _ _ _ => false | Multipart _ _ _ _ => true end.

(** [get_payload(decode=True)]: [None] on a multipart message. *)
Definition get_payload_decoded (m : Message) : option bytes :=
  match m with Leaf _ _ _ b => Some b | Multipart _ _ _ _ => None end.

(** [msg.walk()]: the message, then its parts depth first, in order. *)
Fixpoint walk (m : Message) : list Message :=
  match m with
  | Leaf _ _ _ _ => [m]
  | Multipart _ _ _ parts => m :: flat_map walk parts
  end.

(** One element of the list [decode_header] returns: [str] or [bytes]. *)
Inductive chunk : Type :=
| Text (s : str)
| Data (b : bytes).

(** ** The standard library the program calls *)

Class Library : Type := {
  (** [b.decode(encoding)], errors strict. *)
  bytes_decode : str -> bytes -> answer str;
  (** [email.header.decode_header]. *)
  decode_header : str -> answer (list (chunk * option str));
  (** [email.message_from_bytes]. *)
  message_from_bytes : bytes -> Message;
  (** [urllib.parse._check_bracketed_netloc] returns (CPython 3.11.4 on). *)
  bracketed_netloc_ok : str -> bool;
  (** [urllib.parse._checknetloc] returns on a non-ASCII authority. *)
  nfkc_netloc_ok : str -> bool
}.

Record ParseResult : Type := {
  scheme : str;
  netloc : str
}.

Record Response : Type := {
  status_code : Z;
  text : str;
  response_headers : list (str * str)
}.

Record Sender : Type := {
  first_name : str;
  last_name : str;
  email : str
}.

Record Ticket : Type := {
  title : str;
  content : str;
  priority : str;
  sender : Sender
}.

Section Decoding.
Context {L : Library}.
Local Open Scope answer_scope.

(** ** [decode_str] (lines 19-24) *)
Definition decode_str (string : str) : answer str :=
  chunks <- decode_header string ;;
  first <- item chunks 0 ;;
  let '(decoded_string, charset) := first in
  match decoded_string with
  | Data b =>
      bytes_decode
        (match charset with
         | Some (c :: cs) => c :: cs
         | Some [] | None => str_of "utf-8"
         end) b
  | Text s => Returns s
  end.

(** [part.get_payload(decode=True).decode()]. *)
Definition payload_text (part : Message) : answer str :=
  match get_payload_decoded part with
  | Some b => bytes_decode (str_of "utf-8") b
  | None => Raises AttributeError
  end.

(** The [for part in msg.walk()] loop of [get_email_body]: [Some] when an
    iteration returns, [None] when the loop runs out. *)
Fixpoint scan_parts (parts : list Message) : option (answer str) :=
  match parts with
  | [] => None
  | part :: rest =>
      if str_eqb (get_content_type part) (str_of "text/html")
      then Some (payload_text part)
      else if str_eqb (get_content_type part) (str_of "text/plain")
      then Some (payload_text part)
      else scan_parts rest
  end.

(** ** [get_email_body] (lines 26-34) *)
Definition get_email_body (msg : Message) : answer str :=
  if is_multipart msg then
    match scan_parts (walk msg) with
    | Some r => r
    | None => payload_text msg
    end
  else payload_text msg.

(** ** [urllib.parse.urlparse], as far as [scheme] and [netloc]
    (CPython 3.11.4 and later) *)

Definition c0_control_or_space (c : char) : bool := (c <=? 0x20)%N.
Definition unsafe_url_char (c : char) : bool :=
  char_eqb c 0x09%N || char_eqb c 0x0D%N || char_eqb c 0x0A%N.
Definition is_ascii_upper (c : char) : bool := ((0x41 <=? c) && (c <=? 0x5A))%N.
Definition is_ascii_lower (c : char) : bool := ((0x61 <=? c) && (c <=? 0x7A))%N.
Definition is_ascii_alpha (c : char) : bool :=
  is_ascii_upper c || is_ascii_lower c.
Definition is_ascii_digit (c : char) : bool := ((0x30 <=? c) && (c <=? 0x39))%N.
Definition scheme_char (c : char) : bool :=
  is_ascii_alpha c || is_ascii_digit c
  || char_eqb c (chr "+") || char_eqb c (chr "-") || char_eqb c (chr ".").
(** [c.lower()] on a scheme character. *)
Definition lower (c : char) : char :=
  if is_ascii_upper c then (c + 0x20)%N else c.
Definition isascii (s : str) : bool := forallb (fun c => (c <? 0x80)%N) s.
Definition netloc_delim (c : char) : bool :=
  char_eqb c (chr "/") || char_eqb c (chr "?") || char_eqb c (chr "#").

(** [url[:i]] lower-cased and [url[i+1:]] when [url[:i]], [i] the index
    of the first colon, is a scheme; the empty scheme and [url] if not. *)
Definition split_scheme (url : str) : str * str :=
  let head := takewhile (fun c => negb (char_eqb c (chr ":"))) url in
  if contains (chr ":") url
     && (0 <? List.length head)%nat
     && match url with c :: _ => is_ascii_alpha c | [] => false end
     && forallb scheme_char head
  then (map lower head, skipn (S (List.length head)) url)
  else ([], url).

Definition urlparse (url : str) : answer ParseResult :=
  let url := lstrip c0_control_or_space url in
  let url := filter (fun c => negb (unsafe_url_char c)) url in
  let '(scheme, url) := split_scheme url in
  let netloc :=
    if starts_with (str_of "//") url
    then takewhile (fun c => negb (netloc_delim c)) (skipn 2 url)
    else [] in
  let lb := contains (chr "[") netloc in
  let rb := contains (chr "]") netloc in
  if (lb && negb rb) || (rb && negb lb) then Raises ValueError
  else if lb && rb && negb (bracketed_netloc_ok netloc) then Raises ValueError
  else if negb (isascii netloc) && negb (nfkc_netloc_ok netloc)
  then Raises ValueError
  else Returns {| scheme := scheme; netloc := netloc |}.

(** ** [ensure_https_url] (lines 43-48) *)
Definition ensure_https_url (url : str) : answer str :=
  parsed <- urlparse url ;;
  if negb (str_eqb (scheme parsed) (str_of "https"))
  then Returns (replace_first (str_of "http://") (str_of "https://") url)
  else Returns url.
End Decoding.

(** ** Sender extraction (lines 126-131 of [main]) *)

Definition extract_sender (from_header : str) : answer (str * str) :=
  (if contains (chr "<") from_header then
     before <- item (split_on (char_eqb (chr "<")) from_header) 0 ;;
     let sender_name :=
       strip (char_eqb quote) (strip isspace before) in
     after <- item (split_on (char_eqb (chr "<")) from_header) 1 ;;
     let sender_email := strip (char_eqb (chr ">")) after in
     Returns (sender_name, sender_email)
   else
     Returns ([], strip isspace from_header))%answer.

(** ** [process_name] (lines 36-41) *)

Definition process_name (full_name : str) : str * str :=
  let parts := split full_name in
  let first_name := match parts with p :: _ => p | [] => [] end in
  let last_name :=
    if (1 <? List.length parts)%nat then join (str_of " ") (tl parts) else [] in
  (first_name, last_name).

(** ** The outside world *)

(** What the program prints, by statement. *)
Inductive log_line : Type :=
| LogMissingVars (missing_vars : list str)
| LogConnecting
| LogLoggedIn
| LogLoginFailed (e : exn)
| LogNoUnread
| LogFound (n : nat)
| LogProcessing (msg_num : str)
| LogPreflightStatus (status : Z)
| LogPreflightHeaders (hs : list (str * str))
| LogCreated (title : str)
| LogMarkedRead
| LogFailedStatus (status : Z)
| LogResponseContent (text : str)
| LogErrorProcessing (e : exn)
| LogFinished
| LogUnexpected (e : exn).

(** One element of the data list [mail.fetch] returns: an
    (envelope, body) pair, or something built otherwise. *)
Inductive fetch_item : Type :=
| FetchPair (envelope body : bytes)
| FetchOther.

(** One interaction, with the answer the world gave. *)
Inductive event : Type :=
| Print (l : log_line)
| Connect (host : str) (r : answer unit)
| Login (user password : str) (r : answer unit)
| Select (mailbox : str) (r : answer unit)
| Search (r : answer (list (option bytes)))
| Fetch (msg_num : bytes) (r : answer (list fetch_item))
| Store (msg_num : bytes) (r : answer unit)
| Logout (r : answer unit)
| Options (url : str) (hs : list (str * str)) (r : answer Response)
| Post (url : str) (json : Ticket) (hs : list (str * str)) (r : answer Response).

(** The servers and the process environment. Each answer may depend on
    everything that happened before the call, and is a return value or an
    [Exception]; interrupts from outside are not part of the model. *)
Record World : Type := {
  (** [os.environ] *)
  environ : str -> option str;
  (** [imaplib.IMAP4_SSL(host)] *)
  imap_connect : list event -> str -> answer unit;
  (** [mail.login(user, password)] *)
  imap_login : list event -> str -> str -> answer unit;
  (** [mail.select(mailbox)] *)
  imap_select : list event -> str -> answer unit;
  (** the data of [mail.search(None, 'UNSEEN')] *)
  imap_search : list event -> answer (list (option bytes));
  (** the data of [mail.fetch(msg_num, '(RFC822)')] *)
  imap_fetch : list event -> bytes -> answer (list fetch_item);
  (** [mail.store(msg_num, '+FLAGS', '\\Seen')] *)
  imap_store : list event -> bytes -> answer unit;
  (** [mail.logout()] *)
  imap_logout : list event -> answer unit;
  (** [requests.options(url, headers=.., timeout=30, verify=True)] *)
  http_options : list event -> str -> list (str * str) -> answer Response;
  (** [requests.post(url, json=.., headers=.., timeout=30, verify=True)] *)
  http_post :
    list event -> str -> Ticket -> list (str * str) -> answer Response
}.

(** ** Statements *)

Inductive outcome (A : Type) : Type :=
| Done (a : A)
| Raised (e : exn)
| Exited (code : Z).          (* SystemExit *)
Arguments Done {A} a.
Arguments Raised {A} e.
Arguments Exited {A} code.

(** A statement maps the interactions so far to its outcome and the
    interactions extended with its own. *)
Definition M (A : Type) : Type := list event -> outcome A * list event.

Definition ret {A} (a : A) : M A := fun h => (Done a, h).

Definition bind {A B} (m : M A) (k : A -> M B) : M B :=
  fun h =>
    match m h with
    | (Done a, h') => k a h'
    | (Raised e, h') => (Raised e, h')
    | (Exited c, h') => (Exited c, h')
    end.

Declare Scope prog_scope.
Delimit Scope prog_scope with prog.
Notation "x <- m ;; k" := (bind m (fun x => k))
  (at level 100, m at next level, right associativity) : prog_scope.
Notation "' p <- m ;; k" := (bind m (fun x => let 'p := x in k))
  (at level 100, p pattern, m at next level, right associativity) : prog_scope.
Notation "m ;; k" := (bind m (fun _ => k))
  (at level 100, right associativity) : prog_scope.

(** How an answer ends the statement that asked for it. *)
Definition outcome_of {A} (r : answer A) : outcome A :=
  match r with
  | Returns a => Done a
  | Raises e => Raised e
  end.

(** A fallible expression inside a statement. *)
Definition lift {A} (r : answer A) : M A := fun h => (outcome_of r, h).

(** [sys.exit(code)] *)
Definition sys_exit {A} (code : Z) : M A := fun h => (Exited code, h).

(** [try: body except <catches> as e: handler e].  [SystemExit] passes. *)
Definition try_except {A} (body : M A) (catches : exn -> bool)
    (handler : exn -> M A) : M A :=
  fun h =>
    match body h with
    | (Raised e, h') => if catches e then handler e h' else (Raised e, h')
    | r => r
    end.

(** [for x in l: body x] *)
Fixpoint for_each {A} (l : list A) (body : A -> M unit) : M unit :=
  match l with
  | [] => ret tt
  | x :: l' => bind (body x) (fun _ => for_each l' body)
  end.

(** A call to the world: ask with the history, record call and answer. *)
Definition call {A} (ask : list event -> answer A) (ev : answer A -> event)
    : M A :=
  fun h => let r := ask h in (outcome_of r, h ++ [ev r]).

Definition print (l : log_line) : M unit := fun h => (Done tt, h ++ [Print l]).

(** [except Exception] *)
Definition any_Exception (e : exn) : bool := true.

(** [except imaplib.IMAP4.error] *)
Definition is_IMAP4_error (e : exn) : bool :=
  match e with IMAP4_error => true | _ => false end.

(** Truth value of an optional string ([None] and the empty one are false). *)
Definition truthy {A} (o : option (list A)) : bool :=
  match o with Some (_ :: _) => true | Some [] | None => false end.

Section Program.
Context {L : Library} (W : World).
Local Open Scope prog_scope.

(** ** [check_environment] (lines 10-17) *)
Definition check_environment : M unit :=
  let required_vars :=
    [str_of "EMAIL"; str_of "EMAIL_PASSWORD"; str_of "WEBHOOK_URL";
     str_of "IMAP_SERVER"] in
  let missing_vars :=
    filter (fun var => negb (truthy (environ W var))) required_vars in
  match missing_vars with
  | _ :: _ => print (LogMissingVars missing_vars) ;; sys_exit 1
  | [] => ret tt
  end.

(** [os.environ[key]] *)
Definition environ_item (key : str) : M str :=
  match environ W key with
  | Some v => ret v
  | None => lift (Raises KeyError)
  end.

(** ** [send_webhook_request] (lines 50-83) *)
Definition send_webhook_request (url : str) (data : Ticket) : M Response :=
  url <- lift (ensure_https_url url) ;;
  parsed <- lift (urlparse url) ;;
  let headers :=
    [(str_of "Content-Type", str_of "application/json");
     (str_of "Accept", str_of "application/json");
     (str_of "Origin", netloc parsed);
     (str_of "Access-Control-Request-Method", str_of "POST");
     (str_of "Access-Control-Request-Headers", str_of "Content-Type, Accept");
     (str_of "User-Agent", str_of "FluentSupport-EmailProcessor/1.0")] in
  preflight_response <-
    call (fun h => http_options W h url headers) (Options url headers) ;;
  print (LogPreflightStatus (status_code preflight_response)) ;;
  print (LogPreflightHeaders (response_headers preflight_response)) ;;
  response <-
    call (fun h => http_post W h url data headers) (Post url data headers) ;;
  ret response.

(** [msg_data[0][1]] *)
Definition fetch_body (msg_data : list fetch_item) : answer bytes :=
  (first <- item msg_data 0 ;;
   match first with
   | FetchPair _ body => Returns body
   | FetchOther => Raises TypeError
   end)%answer.

(** A header the program uses as a [str]; [None] makes the use raise. *)
Definition header_value (v : option str) : answer str :=
  match v with
  | Some s => Returns s
  | None => Raises TypeError
  end.

(** The [try] block of the loop of [main] (lines 119-156). *)
Definition message_body (WEBHOOK_URL : str) (msg_num : bytes) : M unit :=
  shown <- lift (bytes_decode (str_of "utf-8") msg_num) ;;
  print (LogProcessing shown) ;;
  msg_data <- call (fun h => imap_fetch W h msg_num) (Fetch msg_num) ;;
  email_body <- lift (fetch_body msg_data) ;;
  let msg := message_from_bytes email_body in
  from_header <- lift (header_value (msg_from msg)) ;;
  '(sender_name, sender_email) <- lift (extract_sender from_header) ;;
  let '(first_name, last_name) := process_name sender_name in
  subject <- lift (header_value (msg_subject msg)) ;;
  title <- lift (decode_str subject) ;;
  content <- lift (get_email_body msg) ;;
  let ticket_data :=
    {| title := title;
       content := content;
       priority := str_of "Normal";
       sender := {| first_name := first_name;
                    last_name := last_name;
                    email := sender_email |} |} in
  response <- send_webhook_request WEBHOOK_URL ticket_data ;;
  if (status_code response =? 200)%Z then
    print (LogCreated title) ;;
    call (fun h => imap_store W h msg_num) (Store msg_num) ;;
    print LogMarkedRead
  else
    print (LogFailedStatus (status_code response)) ;;
    print (LogResponseContent (text response)).

(** One iteration of the loop (lines 117-160). *)
Definition process_message (WEBHOOK_URL : str) (msg_num : bytes) : M unit :=
  try_except (message_body WEBHOOK_URL msg_num) any_Exception
    (fun e => print (LogErrorProcessing e)).

(** ** [main] (lines 85-167) *)
Definition main : M unit :=
  try_except
    (check_environment ;;
     EMAIL <- environ_item (str_of "EMAIL") ;;
     PASSWORD <- environ_item (str_of "EMAIL_PASSWORD") ;;
     WEBHOOK_URL <- environ_item (str_of "WEBHOOK_URL") ;;
     IMAP_SERVER <- environ_item (str_of "IMAP_SERVER") ;;
     print LogConnecting ;;
     call (fun h => imap_connect W h IMAP_SERVER) (Connect IMAP_SERVER) ;;
     try_except
       (call (fun h => imap_login W h EMAIL PASSWORD) (Login EMAIL PASSWORD) ;;
        print LogLoggedIn)
       is_IMAP4_error
       (fun e => print (LogLoginFailed e) ;; sys_exit 1) ;;
     call (fun h => imap_select W h (str_of "INBOX")) (Select (str_of "INBOX")) ;;
     messages <- call (imap_search W) Search ;;
     first <- lift (item messages 0) ;;
     if negb (truthy first) then
       print LogNoUnread ;;
       call (imap_logout W) Logout ;;
       ret tt
     else
       let message_nums :=
         match first with Some b => bytes_split b | None => [] end in
       print (LogFound (List.length message_nums)) ;;
       for_each message_nums (process_message WEBHOOK_URL) ;;
       call (imap_logout W) Logout ;;
       print LogFinished)
    any_Exception
    (fun e => print (LogUnexpected e) ;; sys_exit 1).
End Program.

(** ** Whitespace-separated tokens, as the specification words them *)

Definition blank (w : str) : Prop := Forall (fun c => isspace c = true) w.
Definition token (t : str) : Prop :=
  t <> [] /\ Forall (fun c => isspace c = false) t.

(** What may follow a token: the end of the text or a whitespace character. *)
Definition token_end (s : str) : Prop :=
  match s with [] => True | c :: _ => isspace c = true end.

(** [tokenized s toks]: [s] is [toks] separated by runs of whitespace, with
    optional whitespace at both ends. *)
Inductive tokenized : str -> list str -> Prop :=
| tokenized_blank w : blank w -> tokenized w []
| tokenized_token w t s toks :
    blank w -> token t -> token_end s -> tokenized s toks ->
    tokenized (w ++ t ++ s) (t :: toks).

(** ** Notions the claims are worded with *)

(** The events a statement adds when started after [h]. *)
Definition events_of {A} (m : M A) (h : list event) : list event :=
  skipn (List.length h) (snd (m h)).

(** The events of each iteration of the loop of [main], in order. *)
Fixpoint loop_events {L : Library} (W : World) (WEBHOOK_URL : str)
    (message_nums : list bytes) (h : list event) : list (list event) :=
  match message_nums with
  | [] => []
  | msg_num :: rest =>
      let evs := events_of (process_message W WEBHOOK_URL msg_num) h in
      evs :: loop_events W WEBHOOK_URL rest (h ++ evs)
  end.

Definition is_store_of (msg_num : bytes) (ev : event) : bool :=
  match ev with Store n _ => bytes_eqb n msg_num | _ => false end.

(** The message was marked read: the store command went out for it. *)
Definition marked_read (msg_num : bytes) (evs : list event) : bool :=
  existsb (is_store_of msg_num) evs.

Definition is_post_200 (ev : event) : bool :=
  match ev with
  | Post _ _ _ (Returns r) => (status_code r =? 200)%Z
  | _ => false
  end.

(** The dispatch returned a response with status 200. *)
Definition dispatched_200 (evs : list event) : bool := existsb is_post_200 evs.

(** The interactions an iteration of the loop can have. *)
Definition loop_event (ev : event) : bool :=
  match ev with
  | Print _ | Fetch _ _ | Options _ _ _ | Post _ _ _ _ | Store _ _ => true
  | _ => false
  end.

(** The search returned a data list with a first element. *)
Definition search_answered (ev : event) : bool :=
  match ev with Search (Returns (_ :: _)) => true | _ => false end.

(** The login raised. *)
Definition login_refused (ev : event) : bool :=
  match ev with Login _ _ (Raises _) => true | _ => false end.


Definition is_post (ev : event) : bool :=
  match ev with Post _ _ _ _ => true | _ => false end.
Definition is_logout (ev : event) : bool :=
  match ev with Logout _ => true | _ => false end.

(** Number of events satisfying [p]. *)
Definition count (p : event -> bool) (evs : list event) : nat :=
  List.length (filter p evs).

(** The logout discipline of a finished run: logout went out once when the
    search had returned its data and never otherwise, and a refused login
    ended the run with status 1. *)
Definition logout_discipline (run : outcome unit * list event) : Prop :=
  count is_logout (snd run) =
    (if existsb search_answered (snd run) then 1 else 0)%nat
  /\ (existsb login_refused (snd run) = true ->
      count is_logout (snd run) = 0%nat /\ fst run = Exited 1).

(** [old] occurs in [s] at index [k]. *)
Definition occurs_at (old s : str) (k : nat) : bool :=
  starts_with old (skipn k s).

(** A part whose content type [get_email_body] returns on. *)
Definition is_text_part (part : Message) : bool :=
  str_eqb (get_content_type part) (str_of "text/html")
  || str_eqb (get_content_type part) (str_of "text/plain").

(** The two scheme tokens of [ensure_https_url]. *)
Definition http_token : str := str_of "http://".
Definition https_token : str := str_of "https://".

(** What [urlparse] answers once scheme and authority are known. *)
Definition netloc_checked {L : Library} (scheme netloc : str)
    : answer ParseResult :=
  let lb := contains (chr "[") netloc in
  let rb := contains (chr "]") netloc in
  if (lb && negb rb) || (rb && negb lb) then Raises ValueError
  else if lb && rb && negb (bracketed_netloc_ok netloc) then Raises ValueError
  else if negb (isascii netloc) && negb (nfkc_netloc_ok netloc)
  then Raises ValueError
  else Returns {| scheme := scheme; netloc := netloc |}.

(** The authority of a URL whose text after [scheme://] is [rest]. *)
Definition authority (rest : str) : str :=
  takewhile (fun c => negb (netloc_delim c))
    (filter (fun c => negb (unsafe_url_char c)) rest).

(** The text enclosed by the first pair of angle brackets of a header:
    from after the first [<] up to the next [>], when both exist. *)
Definition bracket_enclosed (header : str) : option str :=
  let after := dropwhile (fun c => negb (char_eqb c (chr "<"))) header in
  match after with
  | [] => None
  | _ :: inner =>
      if contains (chr ">") inner
      then Some (takewhile (fun c => negb (char_eqb c (chr ">"))) inner)
      else None
  end.

(** ** Notions for the further properties *)

(** The variables [check_environment] requires. *)
Definition required_vars : list str :=
  [str_of "EMAIL"; str_of "EMAIL_PASSWORD"; str_of "WEBHOOK_URL";
   str_of "IMAP_SERVER"].

(** The request headers [send_webhook_request] builds for a parsed URL. *)
Definition webhook_headers (parsed : ParseResult) : list (str * str) :=
  [(str_of "Content-Type", str_of "application/json");
   (str_of "Accept", str_of "application/json");
   (str_of "Origin", netloc parsed);
   (str_of "Access-Control-Request-Method", str_of "POST");
   (str_of "Access-Control-Request-Headers", str_of "Content-Type, Accept");
   (str_of "User-Agent", str_of "FluentSupport-EmailProcessor/1.0")].

(** The ticket the loop body builds from a parsed message (lines 125-145),
    without the world around it. *)
Definition ticket_of {L : Library} (msg : Message) : answer Ticket :=
  (from_header <- header_value (msg_from msg) ;;
   sender <- extract_sender from_header ;;
   subject <- header_value (msg_subject msg) ;;
   title <- decode_str subject ;;
   content <- get_email_body msg ;;
   Returns {| title := title;
              content := content;
              priority := str_of "Normal";
              sender := {| first_name := fst (process_name (fst sender));
                           last_name := snd (process_name (fst sender));
                           email := snd sender |} |})%answer.

Definition is_connect (ev : event) : bool :=
  match ev with Connect _ _ => true | _ => false end.
Definition is_store (ev : event) : bool :=
  match ev with Store _ _ => true | _ => false end.
(** An HTTP request, preflight or POST. *)
Definition is_request (ev : event) : bool :=
  match ev with Options _ _ _ | Post _ _ _ _ => true | _ => false end.
(** Anything the loop does with the servers. *)
Definition is_message_io (ev : event) : bool :=
  match ev with
  | Fetch _ _ | Store _ _ | Options _ _ _ | Post _ _ _ _ => true
  | _ => false
  end.
Definition logout_returned (ev : event) : bool :=
  match ev with Logout (Returns _) => true | _ => false end.
(** The search returned data whose first element is [None] or empty. *)
Definition nothing_unseen (ev : event) : bool :=
  match ev with
  | Search (Returns (first :: _)) => negb (truthy first)
  | _ => false
  end.

(** The message numbers fetched, in order. *)
Definition fetched (evs : list event) : list bytes :=
  flat_map (fun ev => match ev with Fetch n _ => [n] | _ => [] end) evs.

(** The message numbers the search reported: its first data item, split. *)
Definition unseen (evs : list event) : list bytes :=
  flat_map (fun ev => match ev with
                      | Search (Returns (Some b :: _)) => bytes_split b
                      | _ => []
                      end) evs.

(** [msg_num.decode()] returns. *)
Definition decodes {L : Library} (msg_num : bytes) : bool :=
  match bytes_decode (str_of "utf-8") msg_num with
  | Returns _ => true
  | Raises _ => false
  end.

(** How a run ends: normally after a logout that returned, or with exit
    status 1 without one. *)
Definition exit_discipline (run : outcome unit * list event) : Prop :=
  (fst run = Done tt /\ existsb logout_returned (snd run) = true)
  \/ (fst run = Exited 1 /\ existsb logout_returned (snd run) = false).

(** A message with an attachment and no text. *)
Definition attachment_only : Message :=
  Multipart (Some (str_of "A B <a@b.com>")) (Some (str_of "Help"))
    (str_of "multipart/mixed")
    [Leaf None None (str_of "application/pdf") (bytes_of "%PDF")].

(** ** Sample inputs *)

Definition continuation (b : N) : bool := ((0x80 <=? b) && (b <=? 0xBF))%N.

(** Strict UTF-8, as [bytes.decode('utf-8')] has it: shortest form only, no
    surrogates, nothing above U+10FFFF. *)
Fixpoint utf8_decode (bs : list N) : answer str :=
  let bad := Raises UnicodeDecodeError in
  let emit c rest := answer_bind (utf8_decode rest) (fun s => Returns (c :: s)) in
  match bs with
  | [] => Returns []
  | b0 :: r0 =>
      if (b0 <? 0x80)%N then emit b0 r0
      else if ((0xC2 <=? b0) && (b0 <=? 0xDF))%N then
        match r0 with
        | b1 :: r1 =>
            if continuation b1
            then emit ((b0 - 0xC0) * 0x40 + (b1 - 0x80))%N r1
            else bad
        | _ => bad
        end
      else if ((0xE0 <=? b0) && (b0 <=? 0xEF))%N then
        match r0 with
        | b1 :: b2 :: r2 =>
            if continuation b1 && continuation b2
               && (negb (b0 =? 0xE0) || (0xA0 <=? b1))%N
               && (negb (b0 =? 0xED) || (b1 <=? 0x9F))%N
            then emit ((b0 - 0xE0) * 0x1000 + (b1 - 0x80) * 0x40
                       + (b2 - 0x80))%N r2
            else bad
        | _ => bad
        end
      else if ((0xF0 <=? b0) && (b0 <=? 0xF4))%N then
        match r0 with
        | b1 :: b2 :: b3 :: r3 =>
            if continuation b1 && continuation b2 && continuation b3
               && (negb (b0 =? 0xF0) || (0x90 <=? b1))%N
               && (negb (b0 =? 0xF4) || (b1 <=? 0x8F))%N
            then emit ((b0 - 0xF0) * 0x40000 + (b1 - 0x80) * 0x1000
                       + (b2 - 0x80) * 0x40 + (b3 - 0x80))%N r3
            else bad
        | _ => bad
        end
      else bad
  end.

(** A subject whose first fragment is an encoded word, and a shorter one
    with the same first fragment. *)
Definition cafe_menu_header : str := str_of "=?utf-8?q?Caf=C3=A9?= menu".
Definition cafe_header : str := str_of "=?utf-8?q?Caf=C3=A9?=".

(** The raw message of the end-to-end scenario. *)
Definition help_raw : bytes :=
  bytes_of "From: A B <a@b.com>
Subject: Help

please help".

Definition help_message : Message :=
  Leaf (Some (str_of "A B <a@b.com>")) (Some (str_of "Help"))
    (str_of "text/plain") (bytes_of "please help").

(** A library for the examples: the UTF-8 codec alone; [decode_header] as
    CPython answers on the two sample subjects and on headers without an
    encoded word; the parser on [help_raw], body-only messages otherwise;
    every authority that needs the IP-literal or NFKC check refused. *)
#[export] Instance sample_library : Library := {|
  bytes_decode enc b :=
    if str_eqb enc (str_of "utf-8") then utf8_decode (map Byte.to_N b)
    else Raises LookupError;
  decode_header h :=
    if str_eqb h cafe_menu_header
    then Returns [(Data [x43; x61; x66; xc3; xa9],
                   Some (str_of "utf-8"));
                  (Data (bytes_of " menu"), None)]
    else if str_eqb h cafe_header
    then Returns [(Data [x43; x61; x66; xc3; xa9],
                   Some (str_of "utf-8"))]
    else Returns [(Text h, None)];
  message_from_bytes raw :=
    if bytes_eqb raw help_raw then help_message
    else Leaf None None (str_of "text/plain") raw;
  bracketed_netloc_ok _ := false;
  nfkc_netloc_ok _ := false
|}.

(** [multipart/alternative] in its usual order: plain text, then HTML. *)
Definition plain_part : Message :=
  Leaf None None (str_of "text/plain") (bytes_of "hi").
Definition html_part : Message :=
  Leaf None None (str_of "text/html") (bytes_of "<p>hi</p>").
Definition plain_then_html : Message :=
  Multipart (Some (str_of "A B <a@b.com>")) (Some (str_of "Help"))
    (str_of "multipart/alternative") [plain_part; html_part].

Definition sample_environ (key : str) : option str :=
  if str_eqb key (str_of "EMAIL") then Some (str_of "support@x.com")
  else if str_eqb key (str_of "EMAIL_PASSWORD") then Some (str_of "secret")
  else if str_eqb key (str_of "WEBHOOK_URL") then Some (str_of "http://h.example/t")
  else if str_eqb key (str_of "IMAP_SERVER") then Some (str_of "imap.x.com")
  else None.

(** A response with the given status and nothing else. *)
Definition reply (status : Z) : Response :=
  {| status_code := status; text := []; response_headers := [] |}.

(** A mailbox with the unread messages 1 and 2, both [help_raw]; the
    answers to login, preflight, dispatch and mark-read are given. *)
Definition sample_world (login : answer unit)
    (preflight dispatch : answer Response) (store : answer unit) : World := {|
  environ := sample_environ;
  imap_connect _ _ := Returns tt;
  imap_login _ _ _ := login;
  imap_select _ _ := Returns tt;
  imap_search _ := Returns [Some (bytes_of "1 2")];
  imap_fetch _ _ := Returns [FetchPair (bytes_of "1 (RFC822 {46}") help_raw];
  imap_store _ _ := store;
  imap_logout _ := Returns tt;
  http_options _ _ _ := preflight;
  http_post _ _ _ _ := dispatch
|}.

Definition help_ticket : Ticket :=
  {| title := str_of "Help";
     content := str_of "please help";
     priority := str_of "Normal";
     sender := {| first_name := str_of "A";
                  last_name := str_of "B";
                  email := str_of "a@b.com" |} |}.

(** Further sample worlds: all answers are the good ones of
    [sample_world] but for the field named. *)
Definition good_world : World :=
  sample_world (Returns tt) (Returns (reply 204)) (Returns (reply 200))
    (Returns tt).

(** Every fetched message is the body-only text [hello], without [From]. *)
Definition headerless_world : World := {|
  environ := environ good_world;
  imap_connect := imap_connect good_world;
  imap_login := imap_login good_world;
  imap_select := imap_select good_world;
  imap_search := imap_search good_world;
  imap_fetch _ _ := Returns [FetchPair (bytes_of "1 (RFC822 {5}") (bytes_of "hello")];
  imap_store := imap_store good_world;
  imap_logout := imap_logout good_world;
  http_options := http_options good_world;
  http_post := http_post good_world
|}.

(** The search finds nothing, as [imaplib] reports it: one empty item. *)
Definition empty_inbox_world : World := {|
  environ := environ good_world;
  imap_connect := imap_connect good_world;
  imap_login := imap_login good_world;
  imap_select := imap_select good_world;
  imap_search _ := Returns [Some []];
  imap_fetch := imap_fetch good_world;
  imap_store := imap_store good_world;
  imap_logout := imap_logout good_world;
  http_options := http_options good_world;
  http_post := http_post good_world
|}.

(** [WEBHOOK_URL] is set to the empty string. *)
Definition unconfigured_world : World := {|
  environ key :=
    if str_eqb key (str_of "WEBHOOK_URL") then Some []
    else environ good_world key;
  imap_connect := imap_connect good_world;
  imap_login := imap_login good_world;
  imap_select := imap_select good_world;
  imap_search := imap_search good_world;
  imap_fetch := imap_fetch good_world;
  imap_store := imap_store good_world;
  imap_logout := imap_logout good_world;
  http_options := http_options good_world;
  http_post := http_post good_world
|}.

Lemma split_words_blank (w s : str) :
  blank w -> split_words isspace [] (w ++ s) = split_words isspace [] s.
Proof.
  induction 1 as [|c w Hc _ IH]; simpl; [reflexivity|].
  now rewrite Hc.
Qed.

Lemma split_words_token (t : str) : forall word s,
  Forall (fun c => isspace c = false) t ->
  split_words isspace word (t ++ s) = split_words isspace (word ++ t) s.
Proof.
  induction t as [|c t IH]; intros word s Ht; simpl.
  - now rewrite app_nil_r.
  - inversion Ht as [|? ? Hc Ht']; subst. rewrite Hc, IH by assumption.
    now rewrite <- app_assoc.
Qed.

Lemma split_words_token_end (t s : str) :
  t <> [] -> token_end s ->
  split_words isspace t s = t :: split_words isspace [] s.
Proof.
  intros Ht Hs. destruct t as [|a t]; [congruence|].
  destruct s as [|c s]; simpl in *; [reflexivity|].
  now rewrite Hs.
Qed.

Lemma split_tokenized (s : str) (toks : list str) :
  tokenized s toks -> split s = toks.
Proof.
  unfold split. induction 1 as [w Hw | w t s toks Hw [Ht Hns] Hend _ IH].
  - rewrite <- (app_nil_r w), split_words_blank by assumption. reflexivity.
  - rewrite split_words_blank by assumption.
    rewrite split_words_token by assumption. simpl.
    rewrite split_words_token_end by assumption. now rewrite IH.
Qed.

(** C5. A display name made of the tokens [t1 .. tN], N >= 1, separated by
    whitespace gives first_name [t1] and last_name [t2 .. tN] joined by
    single spaces; one without a token (empty or all whitespace) gives two
    empty names. *)
Theorem process_name_tokens (full_name : str) (toks : list str) :
  tokenized full_name toks ->
  process_name full_name =
    match toks with
    | t1 :: rest => (t1, join (str_of " ") rest)
    | [] => ([], [])
    end.
Proof.
  intros H. unfold process_name. rewrite (split_tokenized _ _ H).
  destruct toks as [|t1 [|t2 rest]]; reflexivity.
Qed.


(** A text is tokenized by showing each gap and each token in turn. *)
Ltac tokenize w t s :=
  apply (tokenized_token (str_of w) (str_of t) (str_of s));
  [ repeat constructor
  | split; [discriminate | repeat constructor]
  | exact I || reflexivity
  | ].

Lemma process_name_tokens_witness :
  process_name (str_of " Jane  van Doe") = (str_of "Jane", str_of "van Doe").
Proof.
  refine (process_name_tokens (str_of " Jane  van Doe")
            [str_of "Jane"; str_of "van"; str_of "Doe"] _).
  tokenize " "%string "Jane"%string "  van Doe"%string.
  tokenize "  "%string "van"%string " Doe"%string.
  tokenize " "%string "Doe"%string ""%string.
  apply (tokenized_blank []). constructor.
Defined.

(** Every text is tokenized, by the words [split] finds, so the theorem
    speaks of every display name. *)
Lemma tokenized_blank_cons (c : char) (s : str) (toks : list str) :
  isspace c = true -> tokenized s toks -> tokenized (c :: s) toks.
Proof.
  intros Hc H. inversion H as [w Hw | w t s' toks' Hw Ht He Hrest]; subst.
  - apply tokenized_blank. constructor; assumption.
  - change (c :: w ++ t ++ s') with ((c :: w) ++ t ++ s').
    apply tokenized_token; try assumption. constructor; assumption.
Qed.

Lemma tokenized_split_words (s : str) : forall word,
  Forall (fun c => isspace c = false) word ->
  tokenized (word ++ s) (split_words isspace word s).
Proof.
  induction s as [|c s IH]; intros word Hword; simpl.
  - destruct word as [|a word].
    + apply tokenized_blank. constructor.
    + apply (tokenized_token [] (a :: word) [] []).
      * constructor.
      * split; [discriminate | assumption].
      * exact I.
      * apply tokenized_blank. constructor.
  - destruct (isspace c) eqn:Hc.
    + pose proof (tokenized_blank_cons c s _ Hc (IH [] (Forall_nil _))) as Hs.
      destruct word as [|a word]; [exact Hs|].
      apply (tokenized_token [] (a :: word) (c :: s)).
      * constructor.
      * split; [discriminate | assumption].
      * exact Hc.
      * exact Hs.
    + replace (word ++ c :: s) with ((word ++ [c]) ++ s)
        by (rewrite <- app_assoc; reflexivity).
      apply IH. apply Forall_app. split; [assumption|].
      constructor; [assumption | constructor].
Qed.

Lemma tokenized_total (s : str) : tokenized s (split s).
Proof. exact (tokenized_split_words s [] (Forall_nil _)). Qed.

(** ** Facts about the string operations *)

Lemma char_eqb_refl (c : char) : char_eqb c c = true.
Proof. apply N.eqb_refl. Qed.

Lemma str_eqb_eq (a b : str) : str_eqb a b = true <-> a = b.
Proof.
  revert b. induction a as [|x a IH]; intros [|y b]; simpl;
    try (split; [discriminate | congruence]).
  - split; reflexivity.
  - rewrite andb_true_iff, IH. unfold char_eqb. rewrite N.eqb_eq.
    split; [intros [-> ->]; reflexivity | intros [= -> ->]; auto].
Qed.

Lemma str_eqb_neq (a b : str) : str_eqb a b = false <-> a <> b.
Proof.
  rewrite <- str_eqb_eq. destruct (str_eqb a b); split; congruence.
Qed.

Lemma split_on_prefix (c : char) (rest : str) : forall pre,
  contains c pre = false ->
  split_on (char_eqb c) (pre ++ c :: rest) = pre :: split_on (char_eqb c) rest.
Proof.
  induction pre as [|a pre IH]; simpl; intros H.
  - now rewrite char_eqb_refl.
  - apply orb_false_iff in H as [Ha Hpre]. now rewrite Ha, IH.
Qed.

Lemma split_on_absent (c : char) : forall s,
  contains c s = false -> split_on (char_eqb c) s = [s].
Proof.
  induction s as [|a s IH]; simpl; intros H; [reflexivity|].
  apply orb_false_iff in H as [Ha Hs]. now rewrite Ha, IH.
Qed.

Lemma split_on_head {A} (is_sep : A -> bool) : forall s,
  exists ps,
    split_on is_sep s = takewhile (fun c => negb (is_sep c)) s :: ps.
Proof.
  induction s as [|a s [ps IH]]; simpl.
  - now exists [].
  - destruct (is_sep a); simpl; [now eexists|].
    rewrite IH. now eexists.
Qed.


Lemma contains_app (c : char) (a b : str) :
  contains c (a ++ b) = contains c a || contains c b.
Proof. apply existsb_app. Qed.

Lemma contains_middle (c : char) (a b : str) : contains c (a ++ c :: b) = true.
Proof.
  rewrite contains_app. unfold contains at 2. simpl.
  now rewrite char_eqb_refl, orb_true_r.
Qed.

Lemma contains_rev (c : char) (s : str) : contains c (rev s) = contains c s.
Proof.
  induction s as [|a s IH]; simpl; [reflexivity|].
  rewrite contains_app, IH. simpl. rewrite orb_false_r. apply orb_comm.
Qed.


Lemma starts_with_app (p s : str) : starts_with p (p ++ s) = true.
Proof.
  induction p as [|x p IH]; simpl; [reflexivity|].
  now rewrite char_eqb_refl.
Qed.

Lemma starts_with_split (p : str) : forall s,
  starts_with p s = true -> s = p ++ skipn (List.length p) s.
Proof.
  induction p as [|x p IH]; intros [|y s]; simpl; try congruence.
  intros H. apply andb_true_iff in H as [Hx Hp].
  apply N.eqb_eq in Hx. subst y. f_equal. now apply IH.
Qed.

Lemma skipn_length_app {A} (p s : list A) : skipn (List.length p) (p ++ s) = s.
Proof. induction p; simpl; auto. Qed.

Lemma replace_first_unfold (old new s : str) :
  replace_first old new s =
    if starts_with old s then new ++ skipn (List.length old) s
    else match s with
         | [] => []
         | c :: s' => c :: replace_first old new s'
         end.
Proof. destruct s; reflexivity. Qed.

(** The occurrence that no other one precedes is the one replaced, and
    what follows it is kept as it is. *)
Lemma replace_first_at (old new post : str) : forall pre,
  (forall k, (k < List.length pre)%nat ->
             occurs_at old (pre ++ old ++ post) k = false) ->
  replace_first old new (pre ++ old ++ post) = pre ++ new ++ post.
Proof.
  induction pre as [|a pre IH]; intros H.
  - simpl. rewrite replace_first_unfold, starts_with_app.
    now rewrite skipn_length_app.
  - rewrite replace_first_unfold.
    pose proof (H 0%nat ltac:(simpl; lia)) as H0.
    unfold occurs_at in H0. simpl in H0. simpl. rewrite H0. f_equal.
    apply IH. intros k Hk. apply (H (S k)). simpl. lia.
Qed.

Lemma replace_first_absent (old new : str) : forall s,
  (forall k, occurs_at old s k = false) -> replace_first old new s = s.
Proof.
  induction s as [|a s IH]; intros H; rewrite replace_first_unfold;
    pose proof (H 0%nat) as H0; unfold occurs_at in H0; simpl in H0;
    rewrite H0; [reflexivity|].
  f_equal. apply IH. intros k. apply (H (S k)).
Qed.

(** ** Sender extraction *)

(** What the bracket branch computes on any header with [<]: the address
    runs from the first [<] to the next [<] or the end, less the [>] at its
    two ends. *)
Lemma extract_sender_bracket (pre rest : str) :
  contains (chr "<") pre = false ->
  extract_sender (pre ++ chr "<" :: rest) =
    Returns (strip (char_eqb quote) (strip isspace pre),
             strip (char_eqb (chr ">"))
               (takewhile (fun c => negb (char_eqb (chr "<") c)) rest)).
Proof.
  intros Hpre. unfold extract_sender.
  rewrite contains_middle, split_on_prefix by assumption.
  destruct (split_on_head (char_eqb (chr "<")) rest) as [ps ->].
  reflexivity.
Qed.




(** Nor does a [<] without a closing bracket leave the header whole. *)
Lemma extract_sender_unclosed_bracket :
  bracket_enclosed (str_of "a < b") = None
  /\ extract_sender (str_of "a < b") = Returns (str_of "a", str_of " b").
Proof. split; reflexivity. Qed.

(** ** [ensure_https_url] *)

Section EnsureHttps.
Context {L : Library}.

Lemma urlparse_http (rest : str) :
  urlparse (http_token ++ rest) = netloc_checked (str_of "http") (authority rest).
Proof. reflexivity. Qed.


(** The checks of the authority do not look at the scheme. *)
Lemma netloc_checked_scheme (s s' n : str) (p : ParseResult) :
  netloc_checked s n = Returns p ->
  netloc_checked s' n = Returns {| scheme := s'; netloc := n |}.
Proof.
  unfold netloc_checked.
  repeat match goal with
         | |- context [if ?b then _ else _] => destruct b
         end; intros H; try discriminate; reflexivity.
Qed.


Lemma ensure_https_url_rewritten (url : str) (parsed : ParseResult) :
  urlparse url = Returns parsed -> scheme parsed <> str_of "https" ->
  ensure_https_url url = Returns (replace_first http_token https_token url).
Proof.
  intros Hp Hs. unfold ensure_https_url. rewrite Hp. simpl.
  apply str_eqb_neq in Hs. rewrite Hs. reflexivity.
Qed.



(** C10. The rewrite is literal and touches the first ["http://"] only:
    ["HTTP://h.example/t"] comes back unchanged; on a URL whose scheme is
    not https the occurrence of ["http://"] that no other one precedes
    becomes ["https://"] and the text after it, later occurrences included,
    is kept; a URL without ["http://"] comes back unchanged. *)
Theorem ensure_https_url_first_literal_only :
  ensure_https_url (str_of "HTTP://h.example/t") =
    Returns (str_of "HTTP://h.example/t")
  /\ (forall url parsed pre post,
        urlparse url = Returns parsed -> scheme parsed <> str_of "https" ->
        url = pre ++ http_token ++ post ->
        (forall k, (k < List.length pre)%nat ->
                   occurs_at http_token url k = false) ->
        ensure_https_url url = Returns (pre ++ https_token ++ post))
  /\ (forall url parsed,
        urlparse url = Returns parsed ->
        (forall k, occurs_at http_token url k = false) ->
        ensure_https_url url = Returns url).
Proof.
  split; [reflexivity | split].
  - intros url parsed pre post Hp Hs -> Hfirst.
    rewrite (ensure_https_url_rewritten _ _ Hp Hs).
    now rewrite replace_first_at.
  - intros url parsed Hp Habsent. unfold ensure_https_url. rewrite Hp. simpl.
    rewrite replace_first_absent by assumption.
    now destruct (negb _).
Qed.

End EnsureHttps.



Lemma ensure_https_url_first_literal_only_witness :
  ensure_https_url (str_of "ftp://h/?a=http://x&b=http://y") =
    Returns (str_of "ftp://h/?a=https://x&b=http://y")
  /\ ensure_https_url (str_of "HTTPS://h.example/t") =
       Returns (str_of "HTTPS://h.example/t").
Proof.
  split.
  - refine (proj1 (proj2 (@ensure_https_url_first_literal_only sample_library))
              (str_of "ftp://h/?a=http://x&b=http://y")
              {| scheme := str_of "ftp"; netloc := str_of "h" |}
              (str_of "ftp://h/?a=") (str_of "x&b=http://y")
              eq_refl _ eq_refl _).
    + discriminate.
    + intros k Hk.
      do 11 (destruct k as [|k]; [reflexivity|]). simpl in Hk. lia.
  - refine (proj2 (proj2 (@ensure_https_url_first_literal_only sample_library))
              (str_of "HTTPS://h.example/t")
              {| scheme := str_of "https"; netloc := str_of "h.example" |}
              eq_refl _).
    intros k. do 20 (destruct k as [|k]; [reflexivity|]). reflexivity.
Defined.

(** ** [get_email_body] and [decode_str] *)

Section Bodies.
Context {L : Library}.

Lemma scan_parts_find (parts : list Message) :
  scan_parts parts = option_map payload_text (find is_text_part parts).
Proof.
  induction parts as [|part rest IH]; [reflexivity|].
  simpl. unfold is_text_part.
  destruct (str_eqb (get_content_type part) (str_of "text/html"));
    [reflexivity|].
  destruct (str_eqb (get_content_type part) (str_of "text/plain"));
    [reflexivity | exact IH].
Qed.

(** What the code returns for a multipart message: the text of the first
    part, in walk order, that is HTML or plain text, whichever it is. *)
Lemma get_email_body_first_text_part (msg : Message) :
  is_multipart msg = true ->
  get_email_body msg =
    match find is_text_part (walk msg) with
    | Some part => payload_text part
    | None => payload_text msg
    end.
Proof.
  intros H. unfold get_email_body. rewrite H, scan_parts_find.
  now destruct (find is_text_part (walk msg)).
Qed.

Lemma get_email_body_single (msg : Message) :
  is_multipart msg = false -> get_email_body msg = payload_text msg.
Proof. intros H. unfold get_email_body. now rewrite H. Qed.

(** The first fragment alone decides the result. *)
Lemma decode_str_first_chunk (s : str) (c : chunk * option str)
    (rest : list (chunk * option str)) :
  decode_header s = Returns (c :: rest) ->
  decode_str s =
    match fst c with
    | Data b =>
        bytes_decode
          (match snd c with
           | Some (x :: xs) => x :: xs
           | _ => str_of "utf-8"
           end) b
    | Text t => Returns t
    end.
Proof.
  intros H. unfold decode_str. rewrite H. destruct c as [[t|b] [[|x xs]|]];
    reflexivity.
Qed.
End Bodies.

(** C1 at a message in the usual [multipart/alternative] order, plain text
    then HTML: whatever the codec, the body is the text of the plain part,
    ["hi"] under UTF-8, though the message has the HTML part
    ["<p>hi</p>"]. *)
Theorem get_email_body_plain_before_html :
  (forall L : Library,
     @get_email_body L plain_then_html = @payload_text L plain_part)
  /\ get_email_body plain_then_html = Returns (str_of "hi")
  /\ walk plain_then_html = [plain_then_html; plain_part; html_part]
  /\ payload_text html_part = Returns (str_of "<p>hi</p>").
Proof. repeat split; reflexivity. Qed.

(** C8: whatever follows the first fragment of a header is dropped, so two
    headers that agree on it decode to the same text. *)
Theorem decode_str_drops_later_chunks (L : Library) (s s' : str)
    (c : chunk * option str) (rest rest' : list (chunk * option str)) :
  decode_header s = Returns (c :: rest) ->
  decode_header s' = Returns (c :: rest') ->
  decode_str s = decode_str s'.
Proof.
  intros H H'.
  now rewrite (decode_str_first_chunk _ _ _ H), (decode_str_first_chunk _ _ _ H').
Qed.

Lemma decode_str_drops_later_chunks_witness :
  decode_str cafe_menu_header = decode_str cafe_header.
Proof.
  exact (decode_str_drops_later_chunks sample_library
           cafe_menu_header cafe_header
           (Data [x43; x61; x66; xc3; xa9], Some (str_of "utf-8"))
           [(Data (bytes_of " menu"), None)] [] eq_refl eq_refl).
Defined.

(** The subject [=?utf-8?q?Caf=C3=A9?= menu] decodes to the four
    characters of its encoded word. *)
Example decode_str_cafe_menu :
  decode_str cafe_menu_header = Returns [0x43; 0x61; 0x66; 0xE9]%N.
Proof. reflexivity. Qed.

(** A fragment without charset is decoded as UTF-8. *)
Lemma decode_str_default_charset (L : Library) (s : str) (b : bytes)
    (rest : list (chunk * option str)) :
  decode_header s = Returns ((Data b, None) :: rest) ->
  decode_str s = bytes_decode (str_of "utf-8") b.
Proof. intros H. now rewrite (decode_str_first_chunk _ _ _ H). Qed.

(** ** Running statements *)

Lemma bytes_eqb_refl (b : bytes) : bytes_eqb b b = true.
Proof.
  induction b as [|x b IH]; simpl; [reflexivity|].
  rewrite IH. now destruct x.
Qed.

Lemma events_of_app {A} (m : M A) (h evs : list event) (o : outcome A) :
  m h = (o, h ++ evs) -> events_of m h = evs.
Proof. intros H. unfold events_of. rewrite H. apply skipn_length_app. Qed.

Lemma count_app (p : event -> bool) (a b : list event) :
  count p (a ++ b) = (count p a + count p b)%nat.
Proof. unfold count. now rewrite filter_app, length_app. Qed.

(** Unfold the statement combinators, keeping the calls folded. *)
Ltac unfold_statements :=
  cbv beta iota zeta delta
    [process_message message_body send_webhook_request try_except bind lift
     call print ret sys_exit any_Exception outcome_of].

(** Case on the next answer the run depends on. *)
Ltac next_answer :=
  match goal with
  | |- context [match ?x with _ => _ end] =>
      lazymatch x with
      | context [match _ with _ => _ end] => fail
      | context [@for_each] => fail
      | _ => destruct x eqn:?
      end
  end; cbv beta iota zeta.

(** Bring the history of a finished run to the form [h ++ evs]. *)
Ltac collect_events := repeat rewrite <- app_assoc; cbn [app].

Section Dispatch.
Context {L : Library} (W : World).

Lemma send_webhook_request_cases (url : str) (data : Ticket) (h : list event) :
  (exists e, send_webhook_request W url data h = (Raised e, h))
  \/ (exists u hs e,
        ensure_https_url url = Returns u
        /\ send_webhook_request W url data h =
             (Raised e, h ++ [Options u hs (Raises e)]))
  \/ (exists u hs r r',
        ensure_https_url url = Returns u
        /\ send_webhook_request W url data h =
             (outcome_of r',
              h ++ [Options u hs (Returns r);
                    Print (LogPreflightStatus (status_code r));
                    Print (LogPreflightHeaders (response_headers r));
                    Post u data hs r'])).
Proof.
  unfold_statements.
  destruct (ensure_https_url url) as [u|e]; [|left; now eexists].
  destruct (urlparse u) as [parsed|e]; [|left; now eexists].
  next_answer.
  - right; right.
    match goal with
    | |- context [Post u data ?hs ?r'] =>
        match goal with
        | |- context [Options u hs (Returns ?r)] => exists u, hs, r, r'
        end
    end.
    split; [reflexivity|]. next_answer; collect_events; reflexivity.
  - right; left. do 3 eexists. split; reflexivity.
Qed.
End Dispatch.




(** ** One message *)

Section Messages.
Context {L : Library} (W : World).

(** Every iteration ends normally; its events are of the loop's kinds, with
    at most one POST; the store command goes out exactly when the POST
    returned status 200; and when that command raises, the handler's
    diagnostic is the last event. *)
Lemma process_message_cases (url : str) (msg_num : bytes) (h : list event) :
  exists evs,
    process_message W url msg_num h = (Done tt, h ++ evs)
    /\ forallb loop_event evs = true
    /\ (count is_post evs <= 1)%nat
    /\ marked_read msg_num evs = dispatched_200 evs
    /\ (forall e, In (Store msg_num (Raises e)) evs ->
          exists evs0,
            evs = evs0 ++ [Store msg_num (Raises e);
                           Print (LogErrorProcessing e)]
            /\ dispatched_200 evs0 = true).
Proof.
  unfold_statements.
  repeat next_answer; collect_events.
  all: eexists; (split; [reflexivity|]).
  all: unfold marked_read, dispatched_200, count; simpl.
  all: rewrite ?bytes_eqb_refl.
  all: repeat match goal with H : (_ =? _)%Z = _ |- _ => rewrite H end.
  all: repeat split; try reflexivity; try lia.
  all: intros err HIn;
    repeat (destruct HIn as [HIn|HIn]; try discriminate HIn);
    try contradiction.
  injection HIn as <-.
  match goal with
  | |- exists evs0, ?evs = _ /\ _ => exists (removelast (removelast evs))
  end.
  split; [reflexivity|].
  unfold dispatched_200. simpl.
  repeat match goal with H : (_ =? _)%Z = _ |- _ => rewrite H end.
  reflexivity.
Qed.
Lemma process_message_events (url : str) (msg_num : bytes) (h : list event) :
  process_message W url msg_num h =
    (Done tt, h ++ events_of (process_message W url msg_num) h).
Proof.
  destruct (process_message_cases url msg_num h) as (evs & H & _).
  now rewrite (events_of_app _ _ _ _ H).
Qed.

Lemma for_each_process_message (url : str) : forall message_nums h,
  for_each message_nums (process_message W url) h =
    (Done tt, h ++ List.concat (loop_events W url message_nums h))
  /\ Forall2 (fun msg_num evs =>
                marked_read msg_num evs = dispatched_200 evs
                /\ (count is_post evs <= 1)%nat)
       message_nums (loop_events W url message_nums h)
  /\ forallb loop_event (List.concat (loop_events W url message_nums h)) = true.
Proof.
  induction message_nums as [|msg_num rest IH]; intros h.
  - simpl. rewrite app_nil_r. repeat split. constructor.
  - destruct (process_message_cases url msg_num h)
      as (evs & Hrun & Hkind & Hpost & Hmark & _).
    pose proof (events_of_app _ _ _ _ Hrun) as Hevs.
    destruct (IH (h ++ evs)) as (IHrun & IHall & IHkind).
    cbn [for_each loop_events List.concat]. rewrite Hevs.
    unfold bind at 1. rewrite Hrun, IHrun, <- app_assoc.
    repeat split.
    + constructor; [split; assumption | assumption].
    + rewrite forallb_app, Hkind, IHkind. reflexivity.
Qed.
End Messages.


(** The end-to-end scenarios: status 200 marks both messages read, status
    500 marks none, and the run ends normally either way. *)
Example dispatch_200_marks_read :
  map (fun p => marked_read (fst p) (snd p))
    (combine [bytes_of "1"; bytes_of "2"]
       (loop_events
          (sample_world (Returns tt) (Returns (reply 204))
             (Returns (reply 200)) (Returns tt))
          (str_of "http://h.example/t") [bytes_of "1"; bytes_of "2"] [])) =
    [true; true]
  /\ fst (main (sample_world (Returns tt) (Returns (reply 204))
                  (Returns (reply 200)) (Returns tt)) []) = Done tt.
Proof. split; reflexivity. Qed.

Example dispatch_500_leaves_unread :
  map (fun p => marked_read (fst p) (snd p))
    (combine [bytes_of "1"; bytes_of "2"]
       (loop_events
          (sample_world (Returns tt) (Returns (reply 204))
             (Returns (reply 500)) (Returns tt))
          (str_of "http://h.example/t") [bytes_of "1"; bytes_of "2"] [])) =
    [false; false]
  /\ fst (main (sample_world (Returns tt) (Returns (reply 204))
                  (Returns (reply 500)) (Returns tt)) []) = Done tt.
Proof. split; reflexivity. Qed.

(** C9. When the store command of a message raises, after its POST
    returned 200, the handler of the iteration catches the exception: the
    iteration ends normally with the diagnostic as its last event, and the
    loop goes on with the remaining messages and ends normally. *)
Theorem store_failure_is_caught (L : Library) (W : World) (url : str)
    (msg_num : bytes) (rest : list bytes) (h : list event) (e : exn) :
  In (Store msg_num (Raises e)) (events_of (process_message W url msg_num) h) ->
  exists evs0,
    dispatched_200 evs0 = true
    /\ process_message W url msg_num h =
         (Done tt,
          h ++ evs0 ++ [Store msg_num (Raises e); Print (LogErrorProcessing e)])
    /\ for_each (msg_num :: rest) (process_message W url) h =
         for_each rest (process_message W url)
           (h ++ evs0 ++ [Store msg_num (Raises e);
                          Print (LogErrorProcessing e)])
    /\ fst (for_each (msg_num :: rest) (process_message W url) h) = Done tt.
Proof.
  intros HIn.
  destruct (process_message_cases W url msg_num h)
    as (evs & Hrun & _ & _ & _ & Hstore).
  rewrite (events_of_app _ _ _ _ Hrun) in HIn.
  destruct (Hstore e HIn) as (evs0 & -> & H200).
  exists evs0. repeat split; try assumption.
  - cbn [for_each]. unfold bind at 1. now rewrite Hrun.
  - now rewrite (proj1 (for_each_process_message W url (msg_num :: rest) h)).
Qed.

Lemma store_failure_is_caught_witness :
  exists evs0,
    dispatched_200 evs0 = true
    /\ process_message
         (sample_world (Returns tt) (Returns (reply 204))
            (Returns (reply 200)) (Raises IMAP4_error))
         (str_of "http://h.example/t") (bytes_of "1") [] =
         (Done tt,
          [] ++ evs0 ++ [Store (bytes_of "1") (Raises IMAP4_error);
                         Print (LogErrorProcessing IMAP4_error)])
    /\ for_each [bytes_of "1"; bytes_of "2"]
         (process_message
            (sample_world (Returns tt) (Returns (reply 204))
               (Returns (reply 200)) (Raises IMAP4_error))
            (str_of "http://h.example/t")) [] =
       for_each [bytes_of "2"]
         (process_message
            (sample_world (Returns tt) (Returns (reply 204))
               (Returns (reply 200)) (Raises IMAP4_error))
            (str_of "http://h.example/t"))
         ([] ++ evs0 ++ [Store (bytes_of "1") (Raises IMAP4_error);
                         Print (LogErrorProcessing IMAP4_error)])
    /\ fst (for_each [bytes_of "1"; bytes_of "2"]
              (process_message
                 (sample_world (Returns tt) (Returns (reply 204))
                    (Returns (reply 200)) (Raises IMAP4_error))
                 (str_of "http://h.example/t")) []) = Done tt.
Proof.
  refine (store_failure_is_caught sample_library
            (sample_world (Returns tt) (Returns (reply 204))
               (Returns (reply 200)) (Raises IMAP4_error))
            (str_of "http://h.example/t") (bytes_of "1") [bytes_of "2"] []
            IMAP4_error _).
  do 7 right. left. reflexivity.
Defined.

(** ** The whole run *)

Section Run.
Context {L : Library} (W : World).

Lemma check_environment_cases (h : list event) :
  check_environment W h = (Done tt, h)
  \/ exists missing_vars,
       check_environment W h =
         (Exited 1, h ++ [Print (LogMissingVars missing_vars)]).
Proof.
  unfold check_environment.
  destruct (filter _ _) as [|var missing_vars]; [now left | right].
  now eexists.
Qed.

Lemma loop_events_quiet (evs : list event) :
  forallb loop_event evs = true ->
  count is_logout evs = 0%nat
  /\ existsb search_answered evs = false
  /\ existsb login_refused evs = false.
Proof.
  induction evs as [|ev evs IH]; [now repeat split|].
  simpl. intros H. apply andb_true_iff in H as [Hev Hevs].
  destruct (IH Hevs) as (H1 & H2 & H3).
  unfold count in *. simpl. rewrite H2, H3.
  destruct ev; try discriminate Hev; simpl; now repeat split.
Qed.

Lemma main_logout_discipline : logout_discipline (main W []).
Proof.
  cbv beta iota zeta delta
    [main try_except bind lift call print ret sys_exit any_Exception
     outcome_of environ_item item nth_error].
  destruct (check_environment_cases []) as [-> | [missing_vars ->]];
    cbv beta iota zeta; [|now split].
  repeat next_answer; cbn [app].
  all: try (split; [reflexivity | try discriminate; intros _; now split]).
  all: match goal with
       | |- context [for_each ?l (process_message W ?u) ?h0] =>
           destruct (for_each_process_message W u l h0) as (-> & _ & Hq);
           apply loop_events_quiet in Hq; destruct Hq as (Hq1 & Hq2 & Hq3)
       end.
  all: cbv beta iota zeta; repeat next_answer.
  all: unfold logout_discipline; cbn [fst snd].
  all: rewrite ?count_app, ?existsb_app, ?Hq1, ?Hq2, ?Hq3.
  all: split; [reflexivity | discriminate].
Qed.
End Run.

(** C3, as the code has it. Logout is sent exactly once on every run in
    which the search for unseen messages returned its data, whatever
    happens to the messages afterwards, and is not sent on any other run;
    in particular a run whose login is refused ends with exit status 1
    without a logout. *)
Theorem logout_once_after_search (L : Library) (W : World) :
  count is_logout (snd (main W [])) =
    (if existsb search_answered (snd (main W [])) then 1 else 0)%nat
  /\ (existsb login_refused (snd (main W [])) = true ->
      count is_logout (snd (main W [])) = 0%nat
      /\ fst (main W []) = Exited 1).
Proof. exact (main_logout_discipline W). Qed.

Lemma logout_once_after_search_witness :
  count is_logout
    (snd (main (sample_world (Raises IMAP4_error) (Returns (reply 204))
                  (Returns (reply 200)) (Returns tt)) [])) = 0%nat
  /\ fst (main (sample_world (Raises IMAP4_error) (Returns (reply 204))
                  (Returns (reply 200)) (Returns tt)) []) = Exited 1.
Proof.
  exact (proj2 (logout_once_after_search sample_library
                  (sample_world (Raises IMAP4_error) (Returns (reply 204))
                     (Returns (reply 200)) (Returns tt)))
           eq_refl).
Defined.

(** C3 as stated fails on a refused login: the run is connect, login,
    diagnostic, exit. *)
Lemma login_failure_skips_logout :
  main (sample_world (Raises IMAP4_error) (Returns (reply 204))
          (Returns (reply 200)) (Returns tt)) [] =
    (Exited 1,
     [Print LogConnecting;
      Connect (str_of "imap.x.com") (Returns tt);
      Login (str_of "support@x.com") (str_of "secret") (Raises IMAP4_error);
      Print (LogLoginFailed IMAP4_error)]).
Proof. reflexivity. Qed.

(** * Further properties *)

(** ** [process_name] *)

Lemma tokenized_tokens (s : str) (toks : list str) :
  tokenized s toks -> Forall token toks.
Proof. induction 1; constructor; assumption. Qed.

Lemma join_tokenized (toks : list str) :
  Forall token toks -> tokenized (join (str_of " ") toks) toks.
Proof.
  induction 1 as [|t toks Ht Htoks IH].
  - apply (tokenized_blank []). constructor.
  - destruct toks as [|t2 rest].
    + simpl. replace t with ([] ++ t ++ []) at 1 by apply app_nil_r.
      apply tokenized_token; [constructor | assumption | exact I |].
      apply (tokenized_blank []). constructor.
    + change (join (str_of " ") (t :: t2 :: rest))
        with ([] ++ t ++ chr " " :: join (str_of " ") (t2 :: rest)).
      apply tokenized_token; [constructor | assumption | reflexivity |].
      apply tokenized_blank_cons; [reflexivity | exact IH].
Qed.

Lemma token_join_nonempty (t : str) (rest : list str) :
  token t -> join (str_of " ") (t :: rest) <> [].
Proof.
  intros [Ht _]. destruct t as [|c t]; [congruence|].
  destruct rest; discriminate.
Qed.

(** X1. Feeding the two names back, joined by one space (or the first name
    alone when there is no last name), gives the same two names: the
    result is in normal form. *)
Theorem process_name_round_trip (full_name first last : str) :
  process_name full_name = (first, last) ->
  process_name (match last with
                | [] => first
                | _ => first ++ str_of " " ++ last
                end) = (first, last).
Proof.
  unfold process_name. intros H.
  pose proof (tokenized_tokens _ _ (tokenized_total full_name)) as Htoks.
  destruct (split full_name) as [|t1 [|t2 rest]].
  - injection H as <- <-. reflexivity.
  - injection H as <- <-.
    rewrite (split_tokenized t1 [t1]); [reflexivity|].
    exact (join_tokenized [t1] Htoks).
  - change ((t1, join (str_of " ") (t2 :: rest)) = (first, last)) in H.
    pose proof (f_equal fst H) as Hf. pose proof (f_equal snd H) as Hs.
    cbn [fst snd] in Hf, Hs. subst first last. clear H.
    inversion Htoks as [|? ? _ Hrest]; subst.
    assert (Hl : join (str_of " ") (t2 :: rest) <> [])
      by (inversion Hrest; now apply token_join_nonempty).
    destruct (join (str_of " ") (t2 :: rest)) as [|c l] eqn:Hj;
      [congruence|].
    rewrite <- Hj.
    rewrite (split_tokenized _ (t1 :: t2 :: rest));
      [reflexivity | exact (join_tokenized _ Htoks)].
Qed.

Lemma process_name_round_trip_witness :
  process_name (str_of "Jane van Doe") = (str_of "Jane", str_of "van Doe").
Proof.
  exact (process_name_round_trip (str_of "  Jane   van Doe ")
           (str_of "Jane") (str_of "van Doe") eq_refl).
Defined.

Lemma dropwhile_fixed {A} (p : A -> bool) (s : list A) :
  match s with [] => True | c :: _ => p c = false end -> dropwhile p s = s.
Proof. destruct s as [|c s]; simpl; [reflexivity | now intros ->]. Qed.

Lemma strip_fixed {A} (p : A -> bool) (s : list A) :
  match s with [] => True | c :: _ => p c = false end ->
  match rev s with [] => True | c :: _ => p c = false end ->
  strip p s = s.
Proof.
  intros Hl Hr. unfold strip, lstrip, rstrip.
  rewrite (dropwhile_fixed p s Hl), (dropwhile_fixed p (rev s) Hr).
  apply rev_involutive.
Qed.

Lemma token_rev_head (t : str) :
  token t -> exists c r, rev t = c :: r /\ isspace c = false.
Proof.
  intros [Hne Hall]. apply Forall_rev in Hall.
  destruct (rev t) as [|c r] eqn:Hr.
  - apply (f_equal (@rev char)) in Hr. rewrite rev_involutive in Hr.
    now subst t.
  - exists c, r. split; [reflexivity | now inversion Hall].
Qed.

Lemma join_rev_head (toks : list str) : forall t,
  Forall token (t :: toks) ->
  exists c r, rev (join (str_of " ") (t :: toks)) = c :: r /\ isspace c = false.
Proof.
  induction toks as [|t2 rest IH]; intros t H; inversion H as [|? ? Ht Hrest]; subst.
  - now apply token_rev_head.
  - destruct (IH t2 Hrest) as (c & r & Hrev & Hc).
    change (join (str_of " ") (t :: t2 :: rest))
      with (t ++ str_of " " ++ join (str_of " ") (t2 :: rest)).
    rewrite !rev_app_distr, Hrev. simpl. now eexists _, _.
Qed.

Lemma join_strip_fixed (toks : list str) :
  Forall token toks ->
  strip isspace (join (str_of " ") toks) = join (str_of " ") toks.
Proof.
  intros H. destruct toks as [|t rest]; [reflexivity|].
  apply strip_fixed.
  - inversion H as [|? ? [Hne Hall] _]; subst.
    destruct t as [|c t]; [congruence|].
    inversion Hall; subst. now destruct rest.
  - destruct (join_rev_head rest t H) as (c & r & -> & Hc). exact Hc.
Qed.

(** X2. The first name holds no whitespace and is empty exactly when the
    display name is empty or all whitespace, in which case the last name is
    empty too; the last name never begins or ends with whitespace. *)
Theorem process_name_shape (full_name first last : str) :
  process_name full_name = (first, last) ->
  Forall (fun c => isspace c = false) first
  /\ (first = [] <-> blank full_name)
  /\ (first = [] -> last = [])
  /\ strip isspace last = last.
Proof.
  unfold process_name. intros H.
  pose proof (tokenized_total full_name) as Htok.
  pose proof (tokenized_tokens _ _ Htok) as Htoks.
  pose proof (f_equal fst H) as Hf. pose proof (f_equal snd H) as Hs.
  cbv beta zeta in Hf, Hs. cbn [fst snd] in Hf, Hs. clear H.
  destruct (split full_name) as [|t1 rest] eqn:Hsplit.
  - subst first last. split; [constructor|]. split; [|split; reflexivity].
    split; [|reflexivity]. intros _. now inversion Htok.
  - inversion Htoks as [|? ? [Hne Hall] Hrest]; subst first.
    assert (Hlast : last = join (str_of " ") rest).
    { subst last. now destruct rest. }
    repeat split; try assumption; try congruence.
    + intros Hb. pose proof (split_tokenized _ _ (tokenized_blank _ Hb)).
      congruence.
    + rewrite Hlast. now apply join_strip_fixed.
Qed.

Lemma process_name_shape_witness :
  Forall (fun c => isspace c = false) (str_of "Jane")
  /\ (str_of "Jane" = [] <-> blank (str_of " Jane  van Doe"))
  /\ (str_of "Jane" = [] -> str_of "van Doe" = [])
  /\ strip isspace (str_of "van Doe") = str_of "van Doe".
Proof.
  exact (process_name_shape (str_of " Jane  van Doe")
           (str_of "Jane") (str_of "van Doe") eq_refl).
Defined.

(** ** Sender extraction *)

Lemma contains_split (c : char) : forall s,
  contains c s = true ->
  exists pre rest, s = pre ++ c :: rest /\ contains c pre = false.
Proof.
  induction s as [|a s IH]; simpl; [discriminate|].
  destruct (char_eqb c a) eqn:Ha; simpl.
  - intros _. apply N.eqb_eq in Ha. subst a. now exists [], s.
  - intros H. destruct (IH H) as (pre & rest & -> & Hpre).
    exists (a :: pre), rest. split; [reflexivity|].
    simpl. now rewrite Ha.
Qed.

(** X3. The sender extraction never raises: whenever the header holds a
    [<], the second piece of the split exists. *)
Theorem extract_sender_never_raises (from_header : str) :
  exists sender_name sender_email,
    extract_sender from_header = Returns (sender_name, sender_email).
Proof.
  destruct (contains (chr "<") from_header) eqn:H.
  - destruct (contains_split _ _ H) as (pre & rest & -> & Hpre).
    rewrite extract_sender_bracket by assumption. now eexists _, _.
  - unfold extract_sender. rewrite H. now eexists _, _.
Qed.

Lemma dropwhile_head {A} (p : A -> bool) (s : list A) :
  match dropwhile p s with [] => True | c :: _ => p c = false end.
Proof.
  induction s as [|a s IH]; simpl; [exact I|].
  destruct (p a) eqn:Ha; [exact IH | exact Ha].
Qed.

Lemma dropwhile_snoc {A} (p : A -> bool) (c : A) :
  p c = false -> forall x, exists x', dropwhile p (x ++ [c]) = x' ++ [c].
Proof.
  intros Hc. induction x as [|a x [x' IH]]; simpl.
  - rewrite Hc. now exists [].
  - destruct (p a); [now exists x' | now exists (a :: x)].
Qed.

(** Stripping what is stripped changes nothing. *)
Lemma strip_idempotent {A} (p : A -> bool) (s : list A) :
  strip p (strip p s) = strip p s.
Proof.
  apply strip_fixed.
  - unfold strip, lstrip, rstrip.
    pose proof (dropwhile_head p s) as Hd.
    destruct (dropwhile p s) as [|c d]; [exact I|].
    simpl rev. destruct (dropwhile_snoc p c Hd (rev d)) as [x' ->].
    rewrite rev_app_distr. exact Hd.
  - unfold strip, lstrip, rstrip. rewrite rev_involutive.
    apply dropwhile_head.
Qed.

Lemma contains_dropwhile (c : char) (p : char -> bool) (s : str) :
  contains c s = false -> contains c (dropwhile p s) = false.
Proof.
  induction s as [|a s IH]; simpl; [reflexivity|].
  intros H. destruct (p a); [|exact H].
  apply orb_false_iff in H as [_ H]. now apply IH.
Qed.

Lemma contains_strip (c : char) (p : char -> bool) (s : str) :
  contains c s = false -> contains c (strip p s) = false.
Proof.
  intros H. unfold strip, lstrip, rstrip.
  rewrite contains_rev. apply contains_dropwhile.
  rewrite contains_rev. now apply contains_dropwhile.
Qed.

Lemma contains_takewhile (c : char) (s : str) :
  contains c (takewhile (fun x => negb (char_eqb c x)) s) = false.
Proof.
  induction s as [|a s IH]; simpl; [reflexivity|].
  destruct (char_eqb c a) eqn:Ha; simpl; [reflexivity|].
  now rewrite Ha.
Qed.

(** X4. Neither the display name nor the address ever holds a [<]; the
    display name has no quote character at either end; with a [<] in the
    header the address has no [>] at either end, and without one the
    display name is empty and the address has no whitespace at either
    end. *)
Theorem extract_sender_trimmed (from_header sender_name sender_email : str) :
  extract_sender from_header = Returns (sender_name, sender_email) ->
  contains (chr "<") sender_name = false
  /\ contains (chr "<") sender_email = false
  /\ strip (char_eqb quote) sender_name = sender_name
  /\ (if contains (chr "<") from_header
      then strip (char_eqb (chr ">")) sender_email = sender_email
      else sender_name = []
           /\ strip isspace sender_email = sender_email).
Proof.
  destruct (contains (chr "<") from_header) eqn:H.
  - destruct (contains_split _ _ H) as (pre & rest & -> & Hpre).
    rewrite extract_sender_bracket by assumption. intros [= <- <-].
    repeat split.
    + now do 2 apply contains_strip.
    + apply contains_strip, contains_takewhile.
    + apply strip_idempotent.
    + apply strip_idempotent.
  - unfold extract_sender. rewrite H. intros [= <- <-].
    repeat split; try reflexivity.
    + now apply contains_strip.
    + apply strip_idempotent.
Qed.

Lemma extract_sender_trimmed_witness :
  contains (chr "<") (str_of "Jane") = false
  /\ contains (chr "<") (str_of "jane@x.com> (work)") = false
  /\ strip (char_eqb quote) (str_of "Jane") = str_of "Jane"
  /\ strip (char_eqb (chr ">")) (str_of "jane@x.com> (work)") =
       str_of "jane@x.com> (work)".
Proof.
  exact (extract_sender_trimmed (str_of "Jane <jane@x.com> (work)")
           (str_of "Jane") (str_of "jane@x.com> (work)") eq_refl).
Defined.

(** ** [get_email_body] *)

Lemma find_none_existsb {A} (p : A -> bool) (l : list A) :
  existsb p l = false -> find p l = None.
Proof.
  induction l as [|a l IH]; simpl; [reflexivity|].
  destruct (p a); [discriminate | exact IH].
Qed.


(** X5. A multipart message without any HTML or plain-text part (an
    attachment alone, say) makes [get_email_body] raise [AttributeError]:
    the fallback reads the payload of the container, which is [None]. *)
Theorem get_email_body_without_text_part (L : Library) (msg : Message) :
  is_multipart msg = true ->
  existsb is_text_part (walk msg) = false ->
  get_email_body msg = Raises AttributeError.
Proof.
  intros Hm Hnone.
  rewrite (get_email_body_first_text_part msg Hm).
  rewrite (find_none_existsb _ _ Hnone).
  destruct msg; [discriminate | reflexivity].
Qed.

Lemma get_email_body_without_text_part_witness :
  get_email_body attachment_only = Raises AttributeError.
Proof.
  exact (get_email_body_without_text_part sample_library attachment_only
           eq_refl eq_refl).
Defined.



(** ** [ensure_https_url] again *)

Lemma starts_with_cons (p c : char) (pat s : str) :
  starts_with (p :: pat) (c :: s) = char_eqb p c && starts_with pat s.
Proof. reflexivity. Qed.

(** A pattern without the letter [h] that matches after the rewrite
    matched before it. *)
Lemma starts_with_replace_first (pat : str) :
  Forall (fun p => char_eqb p (chr "h") = false) pat ->
  forall s,
    starts_with pat (replace_first http_token https_token s) = true ->
    starts_with pat s = true.
Proof.
  induction 1 as [|p pat Hp _ IH]; intros s; [reflexivity|].
  rewrite replace_first_unfold.
  destruct (starts_with http_token s).
  - change (https_token ++ skipn (List.length http_token) s)
      with (chr "h" :: str_of "ttps://" ++ skipn (List.length http_token) s).
    rewrite starts_with_cons, Hp. discriminate.
  - destruct s as [|c s]; [discriminate|].
    rewrite !starts_with_cons. intros H.
    apply andb_true_iff in H as [Hc H]. now rewrite Hc, (IH s H).
Qed.

(** Whatever the text, after the rewrite it does not begin with
    ["http://"]. *)
Lemma replace_first_not_http (s : str) :
  starts_with http_token (replace_first http_token https_token s) = false.
Proof.
  rewrite replace_first_unfold.
  destruct (starts_with http_token s) eqn:H0; [reflexivity|].
  destruct s as [|c s]; [reflexivity|].
  change http_token with (chr "h" :: str_of "ttp://") in H0 |- * at 1.
  rewrite starts_with_cons in H0 |- *.
  destruct (char_eqb (chr "h") c); [|reflexivity].
  destruct (starts_with (str_of "ttp://")
              (replace_first http_token https_token s)) eqn:H1;
    [|reflexivity].
  apply starts_with_replace_first in H1; [|repeat constructor].
  rewrite H1 in H0. discriminate H0.
Qed.

(** X7. Whatever [ensure_https_url] returns does not begin with the literal
    ["http://"]. *)
Theorem ensure_https_url_never_http_literal (L : Library) (url result : str) :
  ensure_https_url url = Returns result ->
  starts_with http_token result = false.
Proof.
  unfold ensure_https_url.
  destruct (urlparse url) as [parsed|e] eqn:Hp; cbn [answer_bind];
    [|discriminate].
  destruct (str_eqb (scheme parsed) (str_of "https")) eqn:Hs; cbn [negb];
    intros [= <-].
  - destruct (starts_with http_token url) eqn:Hh; [|reflexivity].
    apply starts_with_split in Hh. rewrite Hh, urlparse_http in Hp.
    pose proof (netloc_checked_scheme _ (str_of "http") _ _ Hp) as Hp'.
    rewrite Hp in Hp'. injection Hp' as ->. discriminate Hs.
  - apply replace_first_not_http.
Qed.

Lemma ensure_https_url_never_http_literal_witness :
  starts_with http_token (str_of "http:/https://h/t") = false.
Proof.
  exact (ensure_https_url_never_http_literal sample_library
           (str_of "http:/http://h/t") (str_of "http:/https://h/t") eq_refl).
Defined.

(** ** The loop over the unseen messages *)

(** Run one iteration to each of its ends, leaving the facts about its
    events to [leaf]. *)
Ltac run_message leaf :=
  unfold_statements; repeat next_answer; collect_events;
  eexists; (split; [reflexivity|]); leaf.

Section Loop.
Context {L : Library} (W : World).

Lemma fetched_app (a b : list event) : fetched (a ++ b) = fetched a ++ fetched b.
Proof. apply flat_map_app. Qed.

Lemma process_message_counts (url : str) (msg_num : bytes) (h : list event) :
  exists evs,
    process_message W url msg_num h = (Done tt, h ++ evs)
    /\ fetched evs = filter decodes [msg_num]
    /\ (count is_store evs <= count is_post evs)%nat
    /\ (count is_post evs <= 1)%nat.
Proof.
  run_message
    ltac:(cbn [filter]; unfold decodes, count;
          repeat match goal with
                 | H : bytes_decode _ _ = _ |- _ => rewrite H
                 end;
          cbn; repeat split; try reflexivity; lia).
Qed.

Lemma loop_counts (url : str) : forall message_nums h,
  fetched (List.concat (loop_events W url message_nums h)) =
    filter decodes message_nums
  /\ (count is_store (List.concat (loop_events W url message_nums h))
      <= count is_post (List.concat (loop_events W url message_nums h)))%nat
  /\ (count is_post (List.concat (loop_events W url message_nums h))
      <= List.length message_nums)%nat.
Proof.
  induction message_nums as [|msg_num rest IH]; intros h.
  - now repeat split.
  - destruct (process_message_counts url msg_num h)
      as (evs & Hrun & Hf & Hs & Hp).
    cbn [loop_events List.concat]. rewrite (events_of_app _ _ _ _ Hrun).
    destruct (IH (h ++ evs)) as (IHf & IHs & IHp).
    rewrite fetched_app, !count_app, Hf, IHf. cbn [filter List.length].
    repeat split; [now destruct (decodes msg_num) | lia | lia].
Qed.
End Loop.

(** X8. The loop fetches each message number of its list that decodes as
    text, once and in the order of the list, whatever happens to the
    messages before it; a number that does not decode is skipped without a
    fetch. *)
Theorem loop_fetches_each_message_once (L : Library) (W : World) (url : str)
    (message_nums : list bytes) (h : list event) :
  fetched (List.concat (loop_events W url message_nums h)) =
    filter decodes message_nums.
Proof. exact (proj1 (loop_counts W url message_nums h)). Qed.

(** X9. Over the whole loop there is at most one POST per message, and no
    more mark-read commands than POSTs. *)
Theorem loop_posts_at_most_once_per_message (L : Library) (W : World)
    (url : str) (message_nums : list bytes) (h : list event) :
  (count is_store (List.concat (loop_events W url message_nums h))
   <= count is_post (List.concat (loop_events W url message_nums h)))%nat
  /\ (count is_post (List.concat (loop_events W url message_nums h))
      <= List.length message_nums)%nat.
Proof. exact (proj2 (loop_counts W url message_nums h)). Qed.

(** ** The ticket of one message *)

Lemma fetch_body_pair (msg_data : list fetch_item) (body : bytes) :
  fetch_body msg_data = Returns body ->
  exists envelope more, msg_data = FetchPair envelope body :: more.
Proof.
  destruct msg_data as [|[envelope b|] more]; try discriminate.
  intros [= ->]. now exists envelope, more.
Qed.

(** Use the equations a finished run has collected about the message. *)
Ltac rewrite_answers :=
  repeat (cbn [answer_bind fst snd];
          match goal with
          | H : _ = Returns _ |- _ => rewrite H; clear H
          | H : process_name _ = _ |- _ => rewrite H; clear H
          end);
  cbn [answer_bind fst snd].

Ltac rewrite_answers_in Ht :=
  repeat (cbn [answer_bind fst snd] in Ht;
          match goal with
          | H : _ = Returns _ |- _ => rewrite H in Ht; clear H
          | H : process_name _ = _ |- _ => rewrite H in Ht; clear H
          end);
  cbn [answer_bind fst snd] in Ht.

Ltac in_events H :=
  repeat (destruct H as [H|H]; try discriminate H); try contradiction.

Section Tickets.
Context {L : Library} (W : World).

Lemma process_message_ticket (url : str) (msg_num : bytes) (h : list event) :
  exists evs,
    process_message W url msg_num h = (Done tt, h ++ evs)
    /\ (forall u d hs r,
          In (Post u d hs r) evs ->
          ensure_https_url url = Returns u
          /\ (exists parsed,
                urlparse u = Returns parsed /\ hs = webhook_headers parsed)
          /\ (exists r0, In (Options u hs (Returns r0)) evs)
          /\ exists envelope body more,
               In (Fetch msg_num (Returns (FetchPair envelope body :: more)))
                 evs
               /\ ticket_of (message_from_bytes body) = Returns d)
    /\ (forall envelope body more e,
          In (Fetch msg_num (Returns (FetchPair envelope body :: more))) evs ->
          ticket_of (message_from_bytes body) = Raises e ->
          existsb is_request evs = false /\ existsb is_store evs = false)
    /\ (forall e,
          ensure_https_url url = Raises e ->
          existsb is_request evs = false /\ existsb is_store evs = false).
Proof.
  run_message idtac.
  all: repeat match goal with
              | H : fetch_body _ = Returns _ |- _ =>
                  apply fetch_body_pair in H; destruct H as (? & ? & ->)
              end.
  all: split;
    [ (* the POST *)
      intros u d hs r HIn; in_events HIn;
      (injection HIn as <- <- <- <-;
       split; [reflexivity|];
       split; [eexists; split; [eassumption | reflexivity]|];
       split; [eexists; cbn; tauto|];
       do 3 eexists; split; [cbn; tauto|];
       unfold ticket_of; rewrite_answers; reflexivity)
    | split;
      [ (* a ticket that cannot be built *)
        intros envelope body more err HIn Ht; in_events HIn;
        first [ split; reflexivity
              | injection HIn as <- <- <-; exfalso;
                unfold ticket_of in Ht; rewrite_answers_in Ht;
                discriminate Ht ]
      | (* a URL that cannot be parsed *)
        intros err Herr;
        first [ split; reflexivity | discriminate Herr ] ] ].
Qed.
End Tickets.

(** X10. A POST is sent only after the preflight to the same URL with the
    same headers returned a response; its URL is what [ensure_https_url]
    returned for the configured one, its headers are those built from that
    URL, and its body is the ticket built from the message just fetched:
    title from the decoded subject, content from the body, priority
    ["Normal"], and the sender split by [extract_sender] and
    [process_name]. *)
Theorem post_carries_ticket_of_fetched_message (L : Library) (W : World)
    (url : str) (msg_num : bytes) (h : list event)
    (u : str) (d : Ticket) (hs : list (str * str)) (r : answer Response) :
  In (Post u d hs r) (events_of (process_message W url msg_num) h) ->
  ensure_https_url url = Returns u
  /\ (exists parsed, urlparse u = Returns parsed /\ hs = webhook_headers parsed)
  /\ (exists r0,
        In (Options u hs (Returns r0))
          (events_of (process_message W url msg_num) h))
  /\ exists envelope body more,
       In (Fetch msg_num (Returns (FetchPair envelope body :: more)))
         (events_of (process_message W url msg_num) h)
       /\ ticket_of (message_from_bytes body) = Returns d.
Proof.
  destruct (process_message_ticket W url msg_num h) as (evs & Hrun & H & _).
  rewrite (events_of_app _ _ _ _ Hrun). apply H.
Qed.

Lemma post_carries_ticket_of_fetched_message_witness :
  ensure_https_url (str_of "http://h.example/t") =
    Returns (str_of "https://h.example/t")
  /\ (exists parsed,
        urlparse (str_of "https://h.example/t") = Returns parsed
        /\ webhook_headers {| scheme := str_of "https";
                              netloc := str_of "h.example" |} =
           webhook_headers parsed)
  /\ (exists r0,
        In (Options (str_of "https://h.example/t")
              (webhook_headers {| scheme := str_of "https";
                                  netloc := str_of "h.example" |})
              (Returns r0))
          (events_of (process_message good_world (str_of "http://h.example/t")
                        (bytes_of "1")) []))
  /\ exists envelope body more,
       In (Fetch (bytes_of "1") (Returns (FetchPair envelope body :: more)))
         (events_of (process_message good_world (str_of "http://h.example/t")
                       (bytes_of "1")) [])
       /\ ticket_of (message_from_bytes body) = Returns help_ticket.
Proof.
  refine (post_carries_ticket_of_fetched_message sample_library good_world
            (str_of "http://h.example/t") (bytes_of "1") []
            (str_of "https://h.example/t") help_ticket
            (webhook_headers {| scheme := str_of "https";
                                netloc := str_of "h.example" |})
            (Returns (reply 200)) _).
  do 5 right. left. reflexivity.
Defined.

(** X11. A message whose ticket cannot be built (no [From] or [Subject]
    header, an undecodable subject or body) causes no HTTP request and is
    not marked read. *)
Theorem unbuildable_ticket_sends_nothing (L : Library) (W : World)
    (url : str) (msg_num : bytes) (h : list event)
    (envelope body : bytes) (more : list fetch_item) (e : exn) :
  In (Fetch msg_num (Returns (FetchPair envelope body :: more)))
    (events_of (process_message W url msg_num) h) ->
  ticket_of (message_from_bytes body) = Raises e ->
  existsb is_request (events_of (process_message W url msg_num) h) = false
  /\ existsb is_store (events_of (process_message W url msg_num) h) = false.
Proof.
  destruct (process_message_ticket W url msg_num h)
    as (evs & Hrun & _ & H & _).
  rewrite (events_of_app _ _ _ _ Hrun). apply H.
Qed.

Lemma unbuildable_ticket_sends_nothing_witness :
  existsb is_request
    (events_of (process_message headerless_world (str_of "http://h.example/t")
                  (bytes_of "1")) []) = false
  /\ existsb is_store
       (events_of (process_message headerless_world
                     (str_of "http://h.example/t") (bytes_of "1")) []) = false.
Proof.
  refine (unbuildable_ticket_sends_nothing sample_library headerless_world
            (str_of "http://h.example/t") (bytes_of "1") []
            (bytes_of "1 (RFC822 {5}") (bytes_of "hello") [] TypeError
            _ eq_refl).
  right. left. reflexivity.
Defined.

Section BadUrl.
Context {L : Library} (W : World).

Lemma loop_bad_url (url : str) (e : exn) :
  ensure_https_url url = Raises e ->
  forall message_nums h,
    existsb (fun ev => is_request ev || is_store ev)
      (List.concat (loop_events W url message_nums h)) = false.
Proof.
  intros He. induction message_nums as [|msg_num rest IH]; intros h;
    [reflexivity|].
  destruct (process_message_ticket W url msg_num h)
    as (evs & Hrun & _ & _ & H).
  destruct (H e He) as [Hreq Hstore].
  cbn [loop_events List.concat]. rewrite (events_of_app _ _ _ _ Hrun).
  rewrite existsb_app, IH, orb_false_r.
  clear - Hreq Hstore. induction evs as [|ev evs IHevs]; [reflexivity|].
  cbn in *. apply orb_false_iff in Hreq as [-> Hreq].
  apply orb_false_iff in Hstore as [-> Hstore]. now apply IHevs.
Qed.
End BadUrl.

(** X12. When [urlparse] rejects the configured webhook URL, the loop
    sends no HTTP request and marks no message read, however many
    messages there are. *)
Theorem rejected_webhook_url_sends_nothing (L : Library) (W : World)
    (url : str) (e : exn) (message_nums : list bytes) (h : list event) :
  ensure_https_url url = Raises e ->
  existsb (fun ev => is_request ev || is_store ev)
    (List.concat (loop_events W url message_nums h)) = false.
Proof. intros He. now apply loop_bad_url with (e := e). Qed.

Lemma rejected_webhook_url_sends_nothing_witness :
  existsb (fun ev => is_request ev || is_store ev)
    (List.concat
       (loop_events good_world (str_of "http://[")
          [bytes_of "1"; bytes_of "2"] [])) = false.
Proof.
  exact (rejected_webhook_url_sends_nothing sample_library good_world
           (str_of "http://[") ValueError [bytes_of "1"; bytes_of "2"] []
           eq_refl).
Defined.

(** ** The whole run again *)

Section WholeRun.
Context {L : Library} (W : World).

Lemma loop_events_silent (evs : list event) :
  forallb loop_event evs = true ->
  unseen evs = []
  /\ existsb logout_returned evs = false
  /\ existsb nothing_unseen evs = false
  /\ existsb is_connect evs = false.
Proof.
  induction evs as [|ev evs IH]; [now repeat split|].
  simpl. intros H. apply andb_true_iff in H as [Hev Hevs].
  destruct (IH Hevs) as (H1 & H2 & H3 & H4).
  unfold unseen in *. simpl. rewrite H1, H2, H3, H4.
  destruct ev; try discriminate Hev; simpl; now repeat split.
Qed.

(** Run [main] to each of its ends; [leaf] closes the ends without a loop,
    [loop_leaf] those with one, given the facts about the loop events. *)
Ltac run_main leaf loop_leaf :=
  cbv beta iota zeta delta
    [main try_except bind lift call print ret sys_exit any_Exception
     outcome_of environ_item item nth_error];
  destruct (check_environment_cases W []) as [-> | [missing_vars ->]];
  cbv beta iota zeta; [|leaf];
  repeat next_answer; cbn [app];
  try (leaf; fail);
  match goal with
  | |- context [for_each ?l (process_message W ?u) ?h0] =>
      destruct (for_each_process_message W u l h0) as (-> & _ & Hq);
      pose proof (proj1 (loop_counts W u l h0)) as Hf;
      pose proof (loop_events_quiet _ Hq) as (Hq1 & Hq2 & Hq3);
      pose proof (loop_events_silent _ Hq) as (Hs1 & Hs2 & Hs3 & Hs4)
  end;
  cbv beta iota zeta; repeat next_answer; cbn [fst snd];
  loop_leaf.

Lemma main_exit_discipline : exit_discipline (main W []).
Proof.
  run_main
    ltac:(first [ left; split; reflexivity | right; split; reflexivity ])
    ltac:(unfold exit_discipline; cbn [fst snd];
          rewrite ?existsb_app, ?Hs2;
          first [ left; split; reflexivity | right; split; reflexivity ]).
Qed.
Lemma check_environment_passes (h : list event) :
  existsb (fun var => negb (truthy (environ W var))) required_vars = false ->
  check_environment W h = (Done tt, h).
Proof.
  intros H. unfold check_environment.
  change [str_of "EMAIL"; str_of "EMAIL_PASSWORD"; str_of "WEBHOOK_URL";
          str_of "IMAP_SERVER"] with required_vars.
  induction required_vars as [|var vars IH]; [reflexivity|].
  cbn [existsb filter] in *. apply orb_false_iff in H as [-> H].
  now apply IH.
Qed.

Lemma check_environment_fails (h : list event) :
  existsb (fun var => negb (truthy (environ W var))) required_vars = true ->
  check_environment W h =
    (Exited 1,
     h ++ [Print (LogMissingVars
                    (filter (fun var => negb (truthy (environ W var)))
                       required_vars))]).
Proof.
  intros H. unfold check_environment.
  change [str_of "EMAIL"; str_of "EMAIL_PASSWORD"; str_of "WEBHOOK_URL";
          str_of "IMAP_SERVER"] with required_vars.
  destruct (filter _ required_vars) as [|var vars] eqn:Hf; [|reflexivity].
  exfalso. apply existsb_exists in H as (var & Hin & Hvar).
  assert (Hin' : In var (filter (fun var => negb (truthy (environ W var)))
                           required_vars))
    by (apply filter_In; now split).
  rewrite Hf in Hin'. exact Hin'.
Qed.

Lemma main_without_environment :
  existsb (fun var => negb (truthy (environ W var))) required_vars = true ->
  main W [] =
    (Exited 1,
     [Print (LogMissingVars
               (filter (fun var => negb (truthy (environ W var)))
                  required_vars))]).
Proof.
  intros H. unfold main, try_except, bind at 1.
  now rewrite (check_environment_fails [] H).
Qed.

Lemma main_nothing_unseen :
  existsb nothing_unseen (snd (main W [])) = true ->
  existsb is_message_io (snd (main W [])) = false
  /\ count is_logout (snd (main W [])) = 1%nat.
Proof.
  run_main
    ltac:(cbn [fst snd]; intros Hn;
          first [ discriminate Hn | split; reflexivity ])
    ltac:(intros Hn; exfalso;
          rewrite ?existsb_app, ?Hs3 in Hn;
          cbn [existsb nothing_unseen orb] in Hn;
          repeat match goal with
                 | E : negb (truthy _) = _ |- _ => rewrite E in Hn
                 end;
          discriminate Hn).
Qed.

Lemma main_fetches_unseen :
  fetched (snd (main W [])) = filter decodes (unseen (snd (main W []))).
Proof.
  run_main
    ltac:(first
            [ reflexivity
            | match goal with
              | E : negb (truthy ?o) = true |- _ =>
                  destruct o as [[|? ?]|]; [| discriminate E |]; reflexivity
              end ])
    ltac:(unfold fetched, unseen in *; cbn [flat_map app];
          rewrite ?flat_map_app, ?Hf, ?Hs1; cbn [flat_map app];
          rewrite ?app_nil_r; reflexivity).
Qed.

Lemma main_with_environment :
  existsb (fun var => negb (truthy (environ W var))) required_vars = false ->
  existsb is_connect (snd (main W [])) = true.
Proof.
  intros H.
  assert (Hall : forall var, In var required_vars ->
                             truthy (environ W var) = true).
  { intros var Hin. destruct (truthy (environ W var)) eqn:Hv; [reflexivity|].
    assert (Hex : existsb (fun var => negb (truthy (environ W var)))
                    required_vars = true)
      by (apply existsb_exists; exists var; now rewrite Hv).
    congruence. }
  cbv beta iota zeta delta
    [main try_except bind lift call print ret sys_exit any_Exception
     outcome_of environ_item item nth_error].
  rewrite (check_environment_passes [] H). cbv beta iota zeta.
  repeat next_answer; cbn [app].
  all: try reflexivity.
  all: try (exfalso;
            match goal with
            | E : environ W ?k = None |- _ =>
                pose proof (Hall k ltac:(cbn; tauto)) as X;
                rewrite E in X; discriminate X
            end).
  all: match goal with
       | |- context [for_each ?l (process_message W ?u) ?h0] =>
           destruct (for_each_process_message W u l h0) as (-> & _ & _)
       end.
  all: cbv beta iota zeta; repeat next_answer; cbn [fst snd].
  all: rewrite ?existsb_app; reflexivity.
Qed.
End WholeRun.

(** X13. [main] never lets an exception escape and has two ends only: it
    returns normally, and then a logout was sent and returned, or it exits
    with status 1, and then no logout returned. *)
Theorem main_returns_or_exits_1 (L : Library) (W : World) :
  (fst (main W []) = Done tt
   /\ existsb logout_returned (snd (main W [])) = true)
  \/ (fst (main W []) = Exited 1
      /\ existsb logout_returned (snd (main W [])) = false).
Proof. exact (main_exit_discipline W). Qed.

(** X14. When one of the four variables is unset or empty, [main] prints
    the list of the missing ones, in the order EMAIL, EMAIL_PASSWORD,
    WEBHOOK_URL, IMAP_SERVER, and exits with status 1 before any contact
    with a server; when all four are set and non-empty it goes on to open
    the IMAP connection. *)
Theorem main_requires_environment (L : Library) (W : World) :
  (existsb (fun var => negb (truthy (environ W var))) required_vars = true ->
   main W [] =
     (Exited 1,
      [Print (LogMissingVars
                (filter (fun var => negb (truthy (environ W var)))
                   required_vars))]))
  /\ (existsb (fun var => negb (truthy (environ W var))) required_vars
      = false ->
      existsb is_connect (snd (main W [])) = true).
Proof.
  split; [apply main_without_environment | apply main_with_environment].
Qed.

Lemma main_requires_environment_witness :
  main unconfigured_world [] =
    (Exited 1, [Print (LogMissingVars [str_of "WEBHOOK_URL"])])
  /\ existsb is_connect (snd (main good_world [])) = true.
Proof.
  split.
  - exact (proj1 (main_requires_environment sample_library unconfigured_world)
             eq_refl).
  - exact (proj2 (main_requires_environment sample_library good_world)
             eq_refl).
Defined.

(** X15. When the search reports nothing unseen (a first data item that is
    [None] or empty), [main] fetches nothing, sends no HTTP request and no
    mark-read command, and sends the logout exactly once. *)
Theorem main_without_unseen_messages (L : Library) (W : World) :
  existsb nothing_unseen (snd (main W [])) = true ->
  existsb is_message_io (snd (main W [])) = false
  /\ count is_logout (snd (main W [])) = 1%nat.
Proof. apply main_nothing_unseen. Qed.

Lemma main_without_unseen_messages_witness :
  existsb is_message_io (snd (main empty_inbox_world [])) = false
  /\ count is_logout (snd (main empty_inbox_world [])) = 1%nat.
Proof.
  exact (main_without_unseen_messages sample_library empty_inbox_world
           eq_refl).
Defined.

(** X16. On every run, what [main] fetches is exactly the message numbers
    the search reported (its first data item split at ASCII whitespace)
    that decode as text, each once and in the reported order; nothing is
    fetched when the search was not reached or failed. *)
Theorem main_fetches_the_unseen_messages (L : Library) (W : World) :
  fetched (snd (main W [])) = filter decodes (unseen (snd (main W []))).
Proof. apply main_fetches_unseen. Qed.

Example main_fetches_1_then_2 :
  fetched (snd (main good_world [])) = [bytes_of "1"; bytes_of "2"].
Proof. reflexivity. Qed.

(** ** [send_webhook_request] again *)

(** X17. The response [send_webhook_request] returns is the one the POST
    got, never the preflight's: a returned response means one preflight
    that was answered, its two log lines, and one POST, to the normalized
    URL, answered with that response. *)
Theorem send_webhook_request_returns_post_response (L : Library) (W : World)
    (url : str) (data : Ticket) (h : list event) (response : Response) :
  fst (send_webhook_request W url data h) = Done response ->
  exists u hs r0,
    ensure_https_url url = Returns u
    /\ events_of (send_webhook_request W url data) h =
         [Options u hs (Returns r0);
          Print (LogPreflightStatus (status_code r0));
          Print (LogPreflightHeaders (response_headers r0));
          Post u data hs (Returns response)].
Proof.
  destruct (send_webhook_request_cases W url data h)
    as [[e H] | [(u & hs & e & Hu & H) | (u & hs & r & r' & Hu & H)]];
    intros Hdone; rewrite H in Hdone; cbn [fst] in Hdone;
    try discriminate Hdone.
  destruct r' as [a|e]; cbn [outcome_of] in Hdone; [|discriminate Hdone].
  injection Hdone as ->. exists u, hs, r. split; [assumption|].
  exact (events_of_app _ _ _ _ H).
Qed.

Lemma send_webhook_request_returns_post_response_witness :
  exists u hs r0,
    ensure_https_url (str_of "http://h.example/t") = Returns u
    /\ events_of
         (send_webhook_request
            (sample_world (Returns tt) (Returns (reply 500))
               (Returns (reply 200)) (Returns tt))
            (str_of "http://h.example/t") help_ticket) [] =
       [Options u hs (Returns r0);
        Print (LogPreflightStatus (status_code r0));
        Print (LogPreflightHeaders (response_headers r0));
        Post u help_ticket hs (Returns (reply 200))].
Proof.
  exact (send_webhook_request_returns_post_response sample_library
           (sample_world (Returns tt) (Returns (reply 500))
              (Returns (reply 200)) (Returns tt))
           (str_of "http://h.example/t") help_ticket [] (reply 200) eq_refl).
Defined.
